(** * emergent: the [AgentModel] simulation harness (src/emergent/main.py)

    A shallow embedding of the Python class [AgentModel] and the theorems
    that settle what its specification says about it.

    - Python values are a small tagged union ([value]); dictionaries with
      string keys (the parameter set, the node records) are [gmap string
      value].  Insertion order of the parameter dictionary is not tracked:
      only [list_parameters] observes it.
    - A method is a computation in a state-and-exception monad [M]: it reads
      and writes the model, may consult the environment of the injected
      functions, appends to the printed output, and either returns, raises a
      Python exception or (for the one loop of the class) runs out of fuel.
      State changes made before an exception is raised are kept, as in
      Python.
    - The two injected functions are opaque identifiers whose behaviour is
      given by an interpretation that the development is parametric in.
    - numpy's float64 arithmetic is idealised by exact rational arithmetic.
      The theorems on the convergence check are those that rounding leaves
      alone: how the check fails, that its answer is monotone in the
      threshold, and samples that lie far inside the threshold.  On which
      side of the threshold a sample falls when rounding decides it (integers
      beyond 2^53, a spread of the size of one rounding error) is not
      claimed. *)

From Stdlib Require Import ZArith QArith Qreals Reals Lra Lia.
From stdpp Require Import gmap strings list fin_maps.

Local Open Scope Z_scope.

(** ** Python values *)

Inductive value : Type :=
  | VNone
  | VInt (z : Z)
  | VFloat (q : Q)      (* a float, idealised as an exact rational *)
  | VStr (s : string).

(** Python truthiness, as tested by [if not x] and [x and ...]. *)
Definition truthy (v : value) : bool :=
  match v with
  | VNone => false
  | VInt z => negb (z =? 0)
  | VFloat q => negb (Qeq_bool q 0)
  | VStr s => negb (String.eqb s EmptyString)
  end.

(** [v == s] for a string literal [s]. *)
Definition eq_str (v : value) (s : string) : bool :=
  match v with
  | VStr t => String.eqb t s
  | _ => false
  end.

(** The numeric reading of a value, as numpy sees it in an array of numbers. *)
Definition numeric (v : value) : option Q :=
  match v with
  | VInt z => Some (inject_Z z)
  | VFloat q => Some q
  | _ => None
  end.

(** ** Graphs

    The node-and-edge structure of the graph library: nodes in insertion
    order, each with its record; undirected edges without duplicates. *)

Record Graph : Type := mkGraph {
  nodes : list (Z * gmap string value);
  edges : list (Z * Z)
}.

(** What a variable that is meant to hold a graph can hold. *)
Inductive pyobj : Type :=
  | PVal (v : value)
  | PGraph (g : Graph).

(** ** Exceptions and results *)

Inductive exn : Type :=
  | KeyError
  | TypeError
  | AttributeError
  | NetworkXError
  | PyException (msg : string).

Inductive Res (A : Type) : Type :=
  | Ok (a : A)
  | Raise (e : exn)
  | OutOfFuel.
Arguments Ok {A} a.
Arguments Raise {A} e.
Arguments OutOfFuel {A}.

(** ** The model *)

Definition callable : Type := nat.

Record AgentModel : Type := mkModel {
  parameters : gmap string value;
  graph : pyobj;
  initial_data_function : option callable;
  timestep_function : option callable;
  MAX_TIMESTEPS : Z
}.

Definition default_parameters : gmap string value :=
  <["num_nodes" := VInt 3]>
  (<["graph_type" := VStr "complete"]>
  (<["convergence_data_key" := VNone]>
  (<["convergence_std_dev" := VInt 100]> ∅))).

(** [AgentModel.__init__] *)
Definition init : AgentModel :=
  {| parameters := default_parameters;
     graph := PVal VNone;
     initial_data_function := None;
     timestep_function := None;
     MAX_TIMESTEPS := 100000 |}.

Definition with_parameters (p : gmap string value) (m : AgentModel) : AgentModel :=
  {| parameters := p; graph := graph m;
     initial_data_function := initial_data_function m;
     timestep_function := timestep_function m;
     MAX_TIMESTEPS := MAX_TIMESTEPS m |}.

Definition with_graph (g : pyobj) (m : AgentModel) : AgentModel :=
  {| parameters := parameters m; graph := g;
     initial_data_function := initial_data_function m;
     timestep_function := timestep_function m;
     MAX_TIMESTEPS := MAX_TIMESTEPS m |}.

Definition with_initial_data_function (f : option callable) (m : AgentModel) : AgentModel :=
  {| parameters := parameters m; graph := graph m;
     initial_data_function := f;
     timestep_function := timestep_function m;
     MAX_TIMESTEPS := MAX_TIMESTEPS m |}.

Definition with_timestep_function (f : option callable) (m : AgentModel) : AgentModel :=
  {| parameters := parameters m; graph := graph m;
     initial_data_function := initial_data_function m;
     timestep_function := f;
     MAX_TIMESTEPS := MAX_TIMESTEPS m |}.

Definition with_max_timesteps (n : Z) (m : AgentModel) : AgentModel :=
  {| parameters := parameters m; graph := graph m;
     initial_data_function := initial_data_function m;
     timestep_function := timestep_function m;
     MAX_TIMESTEPS := n |}.

(** ** Printed output *)

Inductive event : Type :=
  | PrintBefore (ns : list (Z * gmap string value))       (* line 180 *)
  | PrintStd (sample : list Q)                            (* line 202 *)
  | PrintAfter (t : Z) (ns : list (Z * gmap string value)). (* line 184 *)

(** ** The monad of methods *)

Section Machine.

(** The environment of the injected functions (a random generator, say). *)
Context {W : Type}.

Record St : Type := mkSt {
  model : AgentModel;
  env : W;
  out : list event
}.

Definition M (A : Type) : Type := St -> Res A * St.

#[export] Instance M_ret : MRet M := fun A a st => (Ok a, st).

#[export] Instance M_bind : MBind M := fun A B k c st =>
  match c st with
  | (Ok a, st') => k a st'
  | (Raise e, st') => (Raise e, st')
  | (OutOfFuel, st') => (OutOfFuel, st')
  end.

Definition raise {A} (e : exn) : M A := fun st => (Raise e, st).
Definition out_of_fuel {A} : M A := fun st => (OutOfFuel, st).
Definition get_model : M AgentModel := fun st => (Ok (model st), st).
Definition modify (f : AgentModel -> AgentModel) : M unit :=
  fun st => (Ok tt, {| model := f (model st); env := env st; out := out st |}).
Definition print (e : event) : M unit :=
  fun st => (Ok tt, {| model := model st; env := env st; out := out st ++ [e] |}).

End Machine.

Arguments St : clear implicits.
Arguments M : clear implicits.

(** ** The graph-construction provider *)

Module GraphProvider.

(** [range(n)] *)
Definition range (n : Z) : list Z := map Z.of_nat (seq 0 (Z.to_nat n)).

(** Modelled from the spec: the graph-construction provider
    ([complete_graph], [cycle_graph] and [wheel_graph] of the graph
    library, which is not part of the sources) builds a node-and-edge
    structure from a node count.  The count becomes the nodes
    [0 .. n-1]; a negative count and a value that is not a count are
    refused. *)
Definition nodes_or_number (n : value) : Res (list Z) :=
  match n with
  | VInt z => if z <? 0 then Raise NetworkXError else Ok (range z)
  | _ => Raise TypeError
  end.

Definition empty_graph (ns : list Z) : Graph :=
  {| nodes := map (fun i => (i, ∅)) ns; edges := [] |}.

Definition same_edge (e1 e2 : Z * Z) : bool :=
  ((e1.1 =? e2.1) && (e1.2 =? e2.2)) || ((e1.1 =? e2.2) && (e1.2 =? e2.1)).

Definition has_edge (e : Z * Z) (es : list (Z * Z)) : bool :=
  existsb (same_edge e) es.

(** An undirected simple graph keeps one copy of an edge. *)
Definition add_edge (g : Graph) (e : Z * Z) : Graph :=
  if has_edge e (edges g) then g
  else {| nodes := nodes g; edges := edges g ++ [e] |}.

Definition add_edges_from (es : list (Z * Z)) (g : Graph) : Graph :=
  fold_left add_edge es g.

(** [itertools.combinations(l, 2)] *)
Fixpoint combinations2 (l : list Z) : list (Z * Z) :=
  match l with
  | [] => []
  | x :: t => map (pair x) t ++ combinations2 t
  end.

(** [pairwise(l, cyclic=True)] *)
Definition pairwise_cyclic (l : list Z) : list (Z * Z) :=
  match l with
  | [] => []
  | x :: t => combine l (t ++ [x])
  end.

(** Modelled from the spec: the complete graph on the given count of
    vertices, every pair of distinct nodes connected. *)
Definition complete_graph (n : value) : Res Graph :=
  match nodes_or_number n with
  | Ok ns =>
      let g := empty_graph ns in
      Ok (if (1 <? Z.of_nat (length ns)) then add_edges_from (combinations2 ns) g else g)
  | Raise e => Raise e
  | OutOfFuel => OutOfFuel
  end.

(** Modelled from the spec: the cycle graph, each node connected to the
    next one and the last to the first. *)
Definition cycle_graph (n : value) : Res Graph :=
  match nodes_or_number n with
  | Ok ns => Ok (add_edges_from (pairwise_cyclic ns) (empty_graph ns))
  | Raise e => Raise e
  | OutOfFuel => OutOfFuel
  end.

(** Modelled from the spec: the wheel graph, a hub (the first node)
    connected to every node of a cycle on the remaining ones. *)
Definition wheel_graph (n : value) : Res Graph :=
  match nodes_or_number n with
  | Ok ns =>
      let g := empty_graph ns in
      Ok (match ns with
          | hub :: rim =>
              if (1 <? Z.of_nat (length ns)) then
                let g1 := add_edges_from (map (pair hub) rim) g in
                if (1 <? Z.of_nat (length rim))
                then add_edges_from (pairwise_cyclic rim) g1
                else g1
              else g
          | [] => g
          end)
  | Raise e => Raise e
  | OutOfFuel => OutOfFuel
  end.

End GraphProvider.

(** ** The numeric-statistics provider *)

(** The formulas of numpy's [mean] and [std], read in exact rational
    arithmetic.  numpy evaluates them in float64, with a rounding at every
    operation and at the conversion of the integers of the sample. *)
Module Stats.

Local Open Scope Q_scope.

Definition Qsum (xs : list Q) : Q := fold_right Qplus 0 xs.

Definition mean (xs : list Q) : Q := Qsum xs / inject_Z (Z.of_nat (length xs)).

(** [mean(abs(x - x.mean())**2)], the square of numpy's [std()] with its
    default [ddof = 0]. *)
Definition variance (xs : list Q) : Q :=
  mean (map (fun x => (x - mean xs) * (x - mean xs)) xs).

(** [xs.std() <= s].  The standard deviation is a square root, so the
    comparison is decided on the squares.  The standard deviation of an
    empty array is nan, and a comparison with nan is false. *)
Definition std_le (xs : list Q) (s : Q) : bool :=
  match xs with
  | [] => false
  | _ => Qle_bool 0 s && Qle_bool (variance xs) (s * s)
  end.

End Stats.

(** ** The methods of [AgentModel] *)

Definition required_keys : list string :=
  ["num_nodes"; "graph_type"; "convergence_data_key"; "convergence_std_dev"].

Section Methods.

Context {W : Type}.

(** An injected function runs on the model and on its own environment;
    it returns or raises, and may have changed both. *)
Definition Callable (A : Type) : Type :=
  AgentModel * W -> Res A * (AgentModel * W).

(** The interpretation of the injected functions: an initializer returns
    a record, a stepper returns nothing. *)
Variable initializer : callable -> Callable (gmap string value).
Variable stepper : callable -> Callable unit.

Definition invoke {A} (c : Callable A) : M W A := fun st =>
  let '(r, (m, w)) := c (model st, env st) in
  (r, {| model := m; env := w; out := out st |}).

Definition lift {A} (r : Res A) : M W A := fun st => (r, st).

(** [update_parameters]: [dict.update] lets the patch win. *)
Definition update_parameters (patch : gmap string value) : M W unit :=
  modify (fun m => with_parameters (patch ∪ parameters m) m).

(** The loop of [delete_parameters], lines 49-57. *)
Fixpoint delete_each (keys : list string) : M W unit :=
  match keys with
  | [] => mret tt
  | param :: rest =>
      m ← get_model;
      if negb (bool_decide (is_Some (parameters m !! param)))
         || bool_decide (param ∈ required_keys)
      then raise KeyError
      else modify (fun m => with_parameters (delete param (parameters m)) m);;
           delete_each rest
  end.

(** [delete_parameters]; [None] is the omitted argument. *)
Definition delete_parameters (keys : option (list string)) : M W bool :=
  match keys with
  | None | Some [] =>
      modify (with_parameters default_parameters);; mret true
  | Some ks => delete_each ks;; mret true
  end.

Definition change_max_timesteps (timesteps : Z) : M W unit :=
  modify (with_max_timesteps timesteps).

(** [__getitem__] *)
Definition getitem (parameter : string) : M W value :=
  m ← get_model;
  match parameters m !! parameter with
  | Some v => mret v
  | None => raise KeyError
  end.

(** [__setitem__] *)
Definition setitem (parameter : string) (v : value) : M W unit :=
  modify (fun m => with_parameters (<[parameter := v]> (parameters m)) m).

(** Truthiness of an object: a graph is true when it has a node. *)
Definition truthy_obj (o : pyobj) : bool :=
  match o with
  | PVal v => truthy v
  | PGraph g => negb (bool_decide (nodes g = []))
  end.

(** [isinstance(o, nx.Graph)] *)
Definition isinstance_Graph (o : pyobj) : bool :=
  match o with
  | PGraph _ => true
  | PVal _ => false
  end.

Definition set_graph (g : pyobj) : M W unit :=
  if truthy_obj g && negb (isinstance_Graph g)
  then raise (PyException "The passed parameter is not a graph object.")
  else modify (with_graph g).

Definition get_graph : M W pyobj :=
  m ← get_model; mret (graph m).

Definition set_initial_data_function (f : option callable) : M W unit :=
  modify (with_initial_data_function f).

Definition set_timestep_function (f : option callable) : M W unit :=
  modify (with_timestep_function f).

(** [self.__graph.nodes(data=True)]: an attribute error when the graph
    variable holds no graph. *)
Definition graph_nodes : M W (list (Z * gmap string value)) :=
  m ← get_model;
  match graph m with
  | PGraph g => mret (nodes g)
  | PVal _ => raise AttributeError
  end.

(** [G.nodes[node].update(data)] *)
Fixpoint update_node (node : Z) (data : gmap string value)
    (ns : list (Z * gmap string value)) : option (list (Z * gmap string value)) :=
  match ns with
  | [] => None
  | (i, r) :: rest =>
      if i =? node then Some ((i, data ∪ r) :: rest)
      else match update_node node data rest with
           | Some rest' => Some ((i, r) :: rest')
           | None => None
           end
  end.

(** The loop of [initialize_graph], lines 152-154, over the nodes of the
    graph that was just built. *)
Fixpoint populate (ns : list Z) : M W unit :=
  match ns with
  | [] => mret tt
  | node :: rest =>
      m ← get_model;
      match initial_data_function m with
      | None => raise TypeError
      | Some f =>
          initial_data ← invoke (initializer f);
          m' ← get_model;
          match graph m' with
          | PVal _ => raise AttributeError
          | PGraph g =>
              match update_node node initial_data (nodes g) with
              | None => raise KeyError
              | Some ns' =>
                  modify (with_graph (PGraph {| nodes := ns'; edges := edges g |}));;
                  populate rest
              end
          end
      end
  end.

Definition initialize_graph : M W unit :=
  num_nodes ← getitem "num_nodes";
  graph_type ← getitem "graph_type";
  g ← lift (if eq_str graph_type "complete" then GraphProvider.complete_graph num_nodes
            else if eq_str graph_type "cycle" then GraphProvider.cycle_graph num_nodes
            else GraphProvider.wheel_graph num_nodes);
  modify (with_graph (PGraph g));;
  m ← get_model;
  if negb (bool_decide (is_Some (initial_data_function m)))
  then raise (PyException "Initial data function is not set.")
  else populate (map fst (nodes g)).

Definition timestep : M W unit :=
  m ← get_model;
  match timestep_function m with
  | None => raise (PyException "Timestep function is not set.")
  | Some f => invoke (stepper f)
  end.

(** [[node_data[data_key] for _, node_data in ...]] *)
Fixpoint collect (data_key : value) (ns : list (Z * gmap string value))
    : Res (list value) :=
  match ns with
  | [] => Ok []
  | (_, node_data) :: rest =>
      match data_key with
      | VStr k =>
          match node_data !! k with
          | Some v =>
              match collect data_key rest with
              | Ok vs => Ok (v :: vs)
              | Raise e => Raise e
              | OutOfFuel => OutOfFuel
              end
          | None => Raise KeyError
          end
      | _ => Raise KeyError
      end
  end.

(** The sample as an array of numbers, when every value is one. *)
Fixpoint as_numbers (vs : list value) : option (list Q) :=
  match vs with
  | [] => Some []
  | v :: rest =>
      match numeric v, as_numbers rest with
      | Some q, Some qs => Some (q :: qs)
      | _, _ => None
      end
  end.

Definition is_converged (data_key std_dev : value) : M W bool :=
  ns ← graph_nodes;
  vs ← lift (collect data_key ns);
  match as_numbers vs with
  | None => raise TypeError
  | Some sample =>
      print (PrintStd sample);;
      match numeric std_dev with
      | None => raise TypeError
      | Some s => mret (Stats.std_le sample s)
      end
  end.

(** The [while] loop of [run_to_convergence], lines 181-186. *)
Fixpoint converge (fuel : nat) (data_key std_dev : value) (time : Z) : M W Z :=
  match fuel with
  | O => out_of_fuel
  | S fuel' =>
      m ← get_model;
      if time <? MAX_TIMESTEPS m then
        c ← is_converged data_key std_dev;
        if negb c then
          timestep;;
          ns ← graph_nodes;
          print (PrintAfter (time + 1) ns);;
          converge fuel' data_key std_dev (time + 1)
        else mret time
      else mret time
  end.

Definition run_to_convergence (fuel : nat) : M W Z :=
  data_key ← getitem "convergence_data_key";
  std_dev ← getitem "convergence_std_dev";
  if negb (truthy data_key)
  then raise (PyException "No convergence data key specified")
  else
    ns ← graph_nodes;
    print (PrintBefore ns);;
    converge fuel data_key std_dev 0.

End Methods.

(** ** Operations on the parameter set, as a caller issues them *)

Inductive param_op : Type :=
  | OpUpdate (patch : gmap string value)
  | OpDelete (keys : option (list string))
  | OpSet (parameter : string) (v : value)
  | OpGet (parameter : string).

Section Callers.

Context {W : Type}.

Definition run_op (o : param_op) : M W unit :=
  match o with
  | OpUpdate patch => update_parameters patch
  | OpDelete keys => delete_parameters keys;; mret tt
  | OpSet k v => setitem k v
  | OpGet k => getitem k;; mret tt
  end.

(** A caller that goes on after an operation raised: the state the
    failed call left behind is the state of the next one. *)
Definition run_ops (ops : list param_op) (st : St W) : St W :=
  foldl (fun s o => snd (run_op o s)) st ops.

(** The state with another parameter set. *)
Definition set_params (p : gmap string value) (st : St W) : St W :=
  {| model := with_parameters p (model st); env := env st; out := out st |}.

(** The state with another graph variable. *)
Definition set_graph_var (g : pyobj) (st : St W) : St W :=
  {| model := with_graph g (model st); env := env st; out := out st |}.

(** The state with more output. *)
Definition add_out (es : list event) (st : St W) : St W :=
  {| model := model st; env := env st; out := out st ++ es |}.

End Callers.

(** What the parameter set holds once the keys of [ks] are popped. *)
Definition delete_keys (ks : list string) (p : gmap string value) : gmap string value :=
  foldl (fun q k => delete k q) p ks.

(** A key that [delete_parameters] accepts: present and not required. *)
Definition deletable (p : gmap string value) (k : string) : Prop :=
  is_Some (p !! k) /\ k ∉ required_keys.

Definition has_required_keys (p : gmap string value) : Prop :=
  Forall (fun k => is_Some (p !! k)) required_keys.

Ltac munfold :=
  unfold mbind, mret, M_bind, M_ret, raise, get_model, modify, print, lift,
    out_of_fuel in *; simpl in *.

(** * Theorems *)

Section ParameterFacts.

Context {W : Type}.
Implicit Types (st : St W) (p : gmap string value) (k : string).

Lemma st_eta st : {| model := model st; env := env st; out := out st |} = st.
Proof. by destruct st. Qed.

Lemma with_parameters_same (m : AgentModel) : with_parameters (parameters m) m = m.
Proof. by destruct m. Qed.

Lemma set_params_same st : set_params (parameters (model st)) st = st.
Proof. unfold set_params. rewrite with_parameters_same. apply st_eta. Qed.

Lemma set_params_twice p q st : set_params p (set_params q st) = set_params p st.
Proof. reflexivity. Qed.

Lemma lookup_delete_keys ks p k :
  delete_keys ks p !! k = if decide (k ∈ ks) then None else p !! k.
Proof.
  revert p. induction ks as [|a ks IH]; intros p.
  - destruct (decide (k ∈ [])) as [H|H]; [by apply elem_of_nil in H | done].
  - change (delete_keys (a :: ks) p) with (delete_keys ks (delete a p)).
    rewrite IH. destruct (decide (k = a)) as [->|Hne].
    + rewrite lookup_delete_eq.
      destruct (decide (a ∈ ks)) as [?|?], (decide (a ∈ a :: ks)) as [?|?];
        try done; set_solver.
    + rewrite lookup_delete_ne by done.
      destruct (decide (k ∈ ks)) as [?|?], (decide (k ∈ a :: ks)) as [?|?];
        try done; set_solver.
Qed.

Lemma default_has_required_keys : has_required_keys default_parameters.
Proof. repeat constructor; vm_compute; eauto. Qed.

Lemma deletable_dec p k : {deletable p k} + {~ deletable p k}.
Proof.
  unfold deletable. destruct (p !! k) as [v|].
  - destruct (decide (k ∈ required_keys)); [right | left]; naive_solver.
  - right. intros [[v Hv] _]. done.
Qed.

Lemma delete_each_step k ks st :
  delete_each (k :: ks) st =
    if negb (bool_decide (is_Some (parameters (model st) !! k)))
       || bool_decide (k ∈ required_keys)
    then (Raise KeyError, st)
    else delete_each ks (set_params (delete k (parameters (model st))) st).
Proof.
  simpl. munfold.
  destruct (negb _ || _); reflexivity.
Qed.

Lemma delete_each_deletable k ks st :
  deletable (parameters (model st)) k ->
  delete_each (k :: ks) st =
    delete_each ks (set_params (delete k (parameters (model st))) st).
Proof.
  intros [Hin Hreq]. rewrite delete_each_step.
  rewrite (bool_decide_eq_true_2 _ Hin), (bool_decide_eq_false_2 _ Hreq).
  reflexivity.
Qed.

Lemma delete_each_undeletable k ks st :
  ~ deletable (parameters (model st)) k ->
  delete_each (k :: ks) st = (Raise KeyError, st).
Proof.
  intros Hno. rewrite delete_each_step.
  destruct (decide (is_Some (parameters (model st) !! k))) as [Hin|Hin].
  - destruct (decide (k ∈ required_keys)) as [Hreq|Hreq].
    + rewrite (bool_decide_eq_true_2 _ Hreq), orb_true_r. reflexivity.
    + exfalso. apply Hno. by split.
  - rewrite (bool_decide_eq_false_2 _ Hin). reflexivity.
Qed.

Lemma deletable_after_delete p a k :
  k <> a -> deletable p k -> deletable (delete a p) k.
Proof.
  intros Hne [Hin Hreq]. split; [|done]. by rewrite lookup_delete_ne.
Qed.

(** Every key of the list is accepted: all of them are popped. *)
Lemma delete_each_ok ks st :
  NoDup ks -> Forall (deletable (parameters (model st))) ks ->
  delete_each ks st = (Ok tt, set_params (delete_keys ks (parameters (model st))) st).
Proof.
  revert st. induction ks as [|a ks IH]; intros st Hnd Hall.
  - simpl. rewrite set_params_same. reflexivity.
  - apply NoDup_cons in Hnd as [Hnotin Hnd].
    apply Forall_cons in Hall as [Ha Hall].
    rewrite delete_each_deletable by done.
    rewrite IH; [reflexivity | done |].
    simpl. rewrite Forall_forall in Hall. apply Forall_forall.
    intros x Hx. apply deletable_after_delete; [|by apply Hall].
    intros ->. done.
Qed.

(** The keys before the first refused one are popped, and the call stops
    there with a lookup error. *)
Lemma delete_each_fail pre k post st :
  NoDup pre -> Forall (deletable (parameters (model st))) pre ->
  parameters (model st) !! k = None \/ k ∈ required_keys \/ k ∈ pre ->
  delete_each (pre ++ k :: post) st =
    (Raise KeyError, set_params (delete_keys pre (parameters (model st))) st).
Proof.
  revert st. induction pre as [|a pre IH]; intros st Hnd Hall Hk.
  - simpl app. rewrite delete_each_undeletable.
    + simpl. by rewrite set_params_same.
    + intros [[v Hv] Hreq]. destruct Hk as [Hk|[Hk|Hk]].
      * congruence.
      * done.
      * by apply elem_of_nil in Hk.
  - apply NoDup_cons in Hnd as [Hnotin Hnd].
    apply Forall_cons in Hall as [Ha Hall].
    change ((a :: pre) ++ k :: post) with (a :: (pre ++ k :: post)).
    rewrite delete_each_deletable by done.
    rewrite IH; [reflexivity | done | |].
    + simpl. rewrite Forall_forall in Hall. apply Forall_forall.
      intros x Hx. apply deletable_after_delete; [|by apply Hall].
      intros ->. done.
    + simpl. destruct (decide (k = a)) as [->|Hne].
      * left. apply lookup_delete_eq.
      * rewrite lookup_delete_ne by done.
        destruct Hk as [Hk|[Hk|Hk]]; [by left | by right; left |].
        right; right. set_solver.
Qed.

(** Every non-empty key list is of one of the two kinds. *)
Lemma delete_each_cases ks p :
  (NoDup ks /\ Forall (deletable p) ks) \/
  (exists pre k post, ks = pre ++ k :: post /\ NoDup pre /\
     Forall (deletable p) pre /\
     (p !! k = None \/ k ∈ required_keys \/ k ∈ pre)).
Proof.
  induction ks as [|k ks IH] using rev_ind.
  - left. split; constructor.
  - destruct IH as [[Hnd Hall]|(pre & k' & post & -> & Hnd & Hall & Hk)].
    + destruct (decide (k ∈ ks)) as [Hin|Hin].
      { right. exists ks, k, []. repeat split; auto. }
      destruct (deletable_dec p k) as [Hd|Hd].
      * left. split.
        -- apply NoDup_app. repeat split; [done | | apply NoDup_singleton].
           intros x Hx Hx'. apply list_elem_of_singleton in Hx'. by subst.
        -- apply Forall_app. split; [done | by constructor].
      * right. exists ks, k, []. repeat split; auto.
        destruct (p !! k) as [v|] eqn:Hv; [|by left].
        right; left. destruct (decide (k ∈ required_keys)); [done|].
        exfalso. apply Hd. split; [eauto | done].
    + right. exists pre, k', (post ++ [k]).
      rewrite <- app_assoc. simpl. repeat split; auto.
Qed.

Lemma NoDup_prefix_bad (pre : list string) k post :
  NoDup (pre ++ k :: post) -> k ∉ pre.
Proof.
  intros Hnd Hin. apply NoDup_app in Hnd as (_ & Hdisj & _).
  apply (Hdisj k Hin). by left.
Qed.

End ParameterFacts.

Section ParameterClaims.

Context {W : Type}.
Implicit Types (st : St W) (p : gmap string value) (k : string).

(** C4.  Whatever the parameter set held, [delete_parameters] called with
    no argument, or with an empty sequence, returns true and leaves the
    parameter set of a freshly constructed model: exactly the four
    default keys, with [num_nodes = 3], [graph_type = "complete"],
    [convergence_data_key = None] and [convergence_std_dev = 100]. *)
Theorem delete_parameters_reset st :
  delete_parameters None st = (Ok true, set_params default_parameters st) /\
  delete_parameters (Some []) st = (Ok true, set_params default_parameters st) /\
  parameters (model (set_params default_parameters st)) = parameters init /\
  dom (parameters init) = list_to_set required_keys /\
  parameters init !! "num_nodes" = Some (VInt 3) /\
  parameters init !! "graph_type" = Some (VStr "complete") /\
  parameters init !! "convergence_data_key" = Some VNone /\
  parameters init !! "convergence_std_dev" = Some (VInt 100).
Proof.
  repeat split; reflexivity.
Qed.

Lemma delete_parameters_some k ks st :
  delete_parameters (Some (k :: ks)) st =
    match delete_each (k :: ks) st with
    | (Ok _, st') => (Ok true, st')
    | (Raise e, st') => (Raise e, st')
    | (OutOfFuel, st') => (OutOfFuel, st')
    end.
Proof. reflexivity. Qed.

(** C5.  [delete_parameters] with a non-empty key sequence processes the
    keys in order.  It returns true exactly when every key is accepted
    (present, not one of the four required keys, not popped already), and
    then all of them are gone.  Otherwise it raises a lookup error at the
    first key that is absent or required: the keys before it have been
    popped, and every other key, the refused one and the later ones with
    it, holds what it held before the call. *)
Theorem delete_parameters_in_order st ks :
  ks <> [] ->
  let p := parameters (model st) in
  let r := delete_parameters (Some ks) st in
  (r.1 = Ok true <-> NoDup ks /\ Forall (deletable p) ks) /\
  (r.1 = Ok true -> r.2 = set_params (delete_keys ks p) st) /\
  (r.1 <> Ok true ->
     r.1 = Raise KeyError /\
     exists pre k post,
       ks = pre ++ k :: post /\
       NoDup pre /\ Forall (deletable p) pre /\
       (p !! k = None \/ k ∈ required_keys \/ k ∈ pre) /\
       r.2 = set_params (delete_keys pre p) st /\
       (forall x, x ∈ pre -> parameters (model r.2) !! x = None) /\
       (forall x, x ∉ pre -> parameters (model r.2) !! x = p !! x)).
Proof.
  intros Hne p r. subst r.
  destruct ks as [|k0 ks0]; [done|]. rewrite delete_parameters_some.
  destruct (delete_each_cases (k0 :: ks0) p)
    as [[Hnd Hall]|(pre & k & post & Heq & Hnd & Hall & Hk)].
  - rewrite delete_each_ok by done. simpl.
    split; [done | split; [done | intros Hno; done]].
  - rewrite Heq, delete_each_fail by done. simpl.
    assert (Hbad : ~ (NoDup (pre ++ k :: post) /\
                      Forall (deletable p) (pre ++ k :: post))).
    { intros [Hnd' Hall']. apply Forall_app in Hall' as [_ Hall'].
      apply Forall_cons in Hall' as [[[v Hv] Hreq] _].
      destruct Hk as [Hk|[Hk|Hk]]; [congruence | done |].
      by apply (NoDup_prefix_bad pre k post). }
    repeat split; try done.
    exists pre, k, post. repeat split; auto.
    + intros x Hx. simpl. fold p. rewrite lookup_delete_keys.
      by destruct (decide (x ∈ pre)).
    + intros x Hx. simpl. fold p. rewrite lookup_delete_keys.
      by destruct (decide (x ∈ pre)).
Qed.

Lemma delete_keys_keeps_required ks p :
  Forall (deletable p) ks -> has_required_keys p ->
  has_required_keys (delete_keys ks p).
Proof.
  intros Hall Hreq. unfold has_required_keys in *.
  rewrite Forall_forall in *. intros k Hk.
  rewrite lookup_delete_keys. destruct (decide (k ∈ ks)) as [Hin|Hin]; [|auto].
  destruct (Hall k Hin) as [_ Hno]. done.
Qed.

Lemma delete_parameters_state k0 ks0 st :
  exists l, Forall (deletable (parameters (model st))) l /\
    (delete_parameters (Some (k0 :: ks0)) st).2 =
      set_params (delete_keys l (parameters (model st))) st.
Proof.
  rewrite delete_parameters_some.
  destruct (delete_each_cases (k0 :: ks0) (parameters (model st)))
    as [[Hnd Hall]|(pre & k & post & Heq & Hnd & Hall & Hk)].
  - rewrite delete_each_ok by done. by exists (k0 :: ks0).
  - rewrite Heq, delete_each_fail by done. by exists pre.
Qed.

Lemma then_unit_state {A} (c : M W A) st :
  ((c;; mret tt) st).2 = (c st).2.
Proof. munfold. by destruct (c st) as [[a|e|] st']. Qed.

Lemma run_op_keeps_required (o : param_op) st :
  has_required_keys (parameters (model st)) ->
  has_required_keys (parameters (model (run_op o st).2)).
Proof.
  intros Hreq. destruct o as [patch|[ks|]|k v|k].
  - simpl. unfold has_required_keys in *. rewrite Forall_forall in *.
    intros k Hk. apply lookup_union_is_Some. right. auto.
  - destruct ks as [|k0 ks0]; [apply default_has_required_keys|].
    unfold run_op. rewrite then_unit_state.
    destruct (delete_parameters_state k0 ks0 st) as (l & Hall & ->).
    by apply delete_keys_keeps_required.
  - apply default_has_required_keys.
  - simpl. unfold has_required_keys in *. rewrite Forall_forall in *.
    intros k' Hk'. rewrite lookup_insert. case_decide; [eauto | auto].
  - unfold run_op. rewrite then_unit_state.
    unfold getitem. munfold.
    by destruct (parameters (model st) !! k).
Qed.

Lemma run_ops_keeps_required (ops : list param_op) st :
  has_required_keys (parameters (model st)) ->
  has_required_keys (parameters (model (run_ops ops st))).
Proof.
  revert st. induction ops as [|o ops IH]; intros st Hreq; [done|].
  simpl. apply IH. by apply run_op_keeps_required.
Qed.

(** C9.  The four required keys are in the parameter set of a fresh
    model and stay there through every sequence of [update_parameters],
    [delete_parameters] (with or without keys), indexed set and indexed
    get, failed calls included; an indexed set or an update overwrites
    the value of a required key as of any other. *)
Theorem required_keys_never_removed (ops : list param_op) (w : W) (o : list event) :
  let st := run_ops ops {| model := init; env := w; out := o |} in
  has_required_keys (parameters (model st)) /\
  (forall k v, parameters (model (setitem k v st).2) !! k = Some v) /\
  (forall patch k v, patch !! k = Some v ->
     parameters (model (update_parameters patch st).2) !! k = Some v).
Proof.
  intros st. split; [|split].
  - apply run_ops_keeps_required, default_has_required_keys.
  - intros k v. simpl. apply lookup_insert_eq.
  - intros patch k v Hk. simpl. by apply lookup_union_Some_l.
Qed.

End ParameterClaims.

(** ** The graph variable *)

(** A graph that a caller installed before: one node with a record. *)
Definition prior_graph : Graph :=
  {| nodes := [(0, {["id" := VInt 7]})]; edges := [] |}.

Section GraphVariable.

Context {W : Type}.
Implicit Types (st : St W).

Lemma set_graph_cases (g : pyobj) st :
  set_graph g st =
    if truthy_obj g && negb (isinstance_Graph g)
    then (Raise (PyException "The passed parameter is not a graph object."), st)
    else (Ok tt, set_graph_var g st).
Proof. unfold set_graph. by destruct (truthy_obj g && negb (isinstance_Graph g)). Qed.

(** [set_graph] raises exactly on a true value that is no graph; a graph
    and every false value (not only [None]) become the graph variable. *)
Lemma set_graph_raises_iff (g : pyobj) st :
  (exists e, (set_graph g st).1 = Raise e) <->
  (exists v, g = PVal v /\ truthy v = true).
Proof.
  rewrite set_graph_cases. destruct g as [v|g]; simpl.
  - rewrite andb_true_r. destruct (truthy v) eqn:Hv; simpl.
    + split; eauto.
    + split; [intros [e He]; done | intros (v' & [= <-] & Hv'); congruence].
  - rewrite andb_false_r. split; [intros [e He]; done | intros (v & Hv & _); done].
Qed.

(** C8.  [set_graph] does not raise on every argument that is neither
    null nor a graph: the integer [0] and the empty string are accepted,
    because the guard tests the truth of the argument and not whether it
    is null, and they become the graph variable in place of the graph
    that was there. *)
Theorem set_graph_accepts_false_values st :
  set_graph (PVal (VInt 0)) st = (Ok tt, set_graph_var (PVal (VInt 0)) st) /\
  set_graph (PVal (VStr EmptyString)) st =
    (Ok tt, set_graph_var (PVal (VStr EmptyString)) st) /\
  graph (model (set_graph (PVal (VInt 0)) (set_graph_var (PGraph prior_graph) st)).2)
    = PVal (VInt 0).
Proof. repeat split; reflexivity. Qed.

Variable initializer : callable -> Callable (W:=W) (gmap string value).

(** C1.  On a model that holds a graph and has no initializer,
    [initialize_graph] raises the precondition error only after it has
    replaced the graph: the graph variable then holds the new topology
    (here the complete graph on the three default nodes, with empty
    records), not the graph it held before the call. *)
Theorem initialize_graph_replaces_graph_before_failing (w : W) (o : list event) :
  let st := {| model := with_graph (PGraph prior_graph) init; env := w; out := o |} in
  let r := initialize_graph initializer st in
  r.1 = Raise (PyException "Initial data function is not set.") /\
  graph (model r.2) =
    PGraph {| nodes := [(0, ∅); (1, ∅); (2, ∅)]; edges := [(0, 1); (0, 2); (1, 2)] |} /\
  graph (model r.2) <> graph (model st).
Proof. repeat split. intros H. discriminate H. Qed.

End GraphVariable.

(** ** The convergence run *)

(** What [is_converged] answers on a model, apart from what it prints. *)
Definition converged (data_key std_dev : value) (m : AgentModel) : Res bool :=
  match graph m with
  | PVal _ => Raise AttributeError
  | PGraph g =>
      match collect data_key (nodes g) with
      | Ok vs =>
          match as_numbers vs, numeric std_dev with
          | Some sample, Some s => Ok (Stats.std_le sample s)
          | _, _ => Raise TypeError
          end
      | Raise e => Raise e
      | OutOfFuel => OutOfFuel
      end
  end.

Section Convergence.

Context {W : Type}.
Variable stepper : callable -> Callable (W:=W) unit.
Implicit Types (st : St W) (ms : AgentModel * W).

(** What one call of [timestep] does to the model and the environment. *)
Definition step_state ms : AgentModel * W :=
  match timestep_function ms.1 with
  | Some f => (stepper f ms).2
  | None => ms
  end.

(** The model and the environment after [n] timesteps. *)
Definition state_at (n : nat) ms : AgentModel * W := Nat.iter n step_state ms.

Definition state_of st : AgentModel * W := (model st, env st).

Lemma state_at_succ n ms : state_at (S n) ms = state_at n (step_state ms).
Proof. unfold state_at. by rewrite Nat.iter_succ_r. Qed.

Lemma getitem_some k v st :
  parameters (model st) !! k = Some v -> getitem k st = (Ok v, st).
Proof. intros H. unfold getitem. munfold. by rewrite H. Qed.

Lemma run_to_convergence_unfold fuel st v s :
  parameters (model st) !! "convergence_data_key" = Some v ->
  parameters (model st) !! "convergence_std_dev" = Some s ->
  run_to_convergence stepper fuel st =
    if negb (truthy v)
    then (Raise (PyException "No convergence data key specified"), st)
    else match graph (model st) with
         | PGraph g => converge stepper fuel v s 0 (add_out [PrintBefore (nodes g)] st)
         | PVal _ => (Raise AttributeError, st)
         end.
Proof.
  intros Hk Hs. unfold run_to_convergence.
  unfold mbind at 1. unfold M_bind. rewrite (getitem_some _ _ _ Hk).
  unfold mbind at 1. unfold M_bind. rewrite (getitem_some _ _ _ Hs).
  destruct (negb (truthy v)); [reflexivity|].
  unfold graph_nodes. munfold. by destruct (graph (model st)).
Qed.

Lemma is_converged_result data_key std_dev st :
  (is_converged data_key std_dev st).1 = converged data_key std_dev (model st) /\
  state_of (is_converged data_key std_dev st).2 = state_of st.
Proof.
  unfold is_converged, converged, graph_nodes. munfold.
  destruct (graph (model st)) as [v|g]; [done|]. simpl.
  destruct (collect data_key (nodes g)) as [vs|e|]; [|done..].
  destruct (as_numbers vs) as [xs|]; [|done]. simpl.
  by destruct (numeric std_dev).
Qed.

Lemma is_converged_out data_key std_dev st b :
  converged data_key std_dev (model st) = Ok b ->
  exists xs, is_converged data_key std_dev st = (Ok b, add_out [PrintStd xs] st).
Proof.
  unfold is_converged, converged, graph_nodes. munfold.
  destruct (graph (model st)) as [v|g]; [done|]. simpl.
  destruct (collect data_key (nodes g)) as [vs|e|]; [|done..].
  destruct (as_numbers vs) as [xs|]; [|done]. simpl.
  destruct (numeric std_dev); [|done]. intros [= <-]. by exists xs.
Qed.

Lemma converge_step fuel data_key std_dev t st :
  converge stepper (S fuel) data_key std_dev t st =
    if t <? MAX_TIMESTEPS (model st) then
      match is_converged data_key std_dev st with
      | (Ok true, st1) => (Ok t, st1)
      | (Ok false, st1) =>
          match timestep stepper st1 with
          | (Ok _, st2) =>
              match graph (model st2) with
              | PGraph g =>
                  converge stepper fuel data_key std_dev (t + 1)
                    (add_out [PrintAfter (t + 1) (nodes g)] st2)
              | PVal _ => (Raise AttributeError, st2)
              end
          | (Raise e, st2) => (Raise e, st2)
          | (OutOfFuel, st2) => (OutOfFuel, st2)
          end
      | (Raise e, st1) => (Raise e, st1)
      | (OutOfFuel, st1) => (OutOfFuel, st1)
      end
    else (Ok t, st).
Proof.
  simpl. unfold mbind at 1. unfold M_bind, get_model.
  destruct (t <? MAX_TIMESTEPS (model st)); [|reflexivity].
  unfold mbind at 1. unfold M_bind.
  destruct (is_converged data_key std_dev st) as [[[|]|e|] st1]; try reflexivity.
  simpl. unfold mbind at 1. unfold M_bind.
  destruct (timestep stepper st1) as [[[]|e|] st2]; try reflexivity.
  unfold graph_nodes. munfold. by destruct (graph (model st2)).
Qed.

Lemma timestep_state st :
  state_of (timestep stepper st).2 =
    match timestep_function (model st) with
    | Some f => (stepper f (state_of st)).2
    | None => state_of st
    end /\
  out (timestep stepper st).2 = out st.
Proof.
  unfold timestep, invoke, state_of. munfold.
  destruct (timestep_function (model st)) as [f|]; [|done].
  by destruct (stepper f (model st, env st)) as [r [m w]].
Qed.

Lemma timestep_result st f :
  timestep_function (model st) = Some f ->
  (timestep stepper st).1 = (stepper f (state_of st)).1.
Proof.
  intros Hf. unfold timestep, invoke, state_of. munfold. rewrite Hf.
  by destruct (stepper f (model st, env st)) as [r [m w]].
Qed.

End Convergence.

(** A stepper that leaves every model as it found it. *)
Definition idle_stepper {W : Type} : callable -> Callable (W:=W) unit :=
  fun _ ms => (Ok tt, ms).

(** Three nodes that all hold [id = 10]. *)
Definition agreed_graph : Graph :=
  {| nodes := [(0, {["id" := VInt 10]}); (1, {["id" := VInt 10]});
               (2, {["id" := VInt 10]})];
     edges := [(0, 1); (0, 2); (1, 2)] |}.

(** Two nodes that hold [id = 1] and [id = 100]. *)
Definition split_graph : Graph :=
  {| nodes := [(0, {["id" := VInt 1]}); (1, {["id" := VInt 100]})];
     edges := [(0, 1)] |}.

(** A model ready for a convergence run on the field [id]. *)
Definition ready_model (g : Graph) (std_dev : value) (bound : Z) : AgentModel :=
  {| parameters := <["convergence_data_key" := VStr "id"]>
                   (<["convergence_std_dev" := std_dev]> default_parameters);
     graph := PGraph g;
     initial_data_function := None;
     timestep_function := Some 0%nat;
     MAX_TIMESTEPS := bound |}.

Definition ready (g : Graph) (std_dev : value) (bound : Z) : St unit :=
  {| model := ready_model g std_dev bound; env := tt; out := [] |}.

Section ConvergenceClaims.

Context {W : Type}.
Variable stepper : callable -> Callable (W:=W) unit.
Implicit Types (st : St W) (ms : AgentModel * W).

(** C10.  When the value of [convergence_data_key] is false (null, the
    empty string, zero), [run_to_convergence] raises the precondition
    error and the whole state is as before: the graph, the parameter set
    and the bound are unchanged and nothing was printed, so neither the
    stepper nor the convergence check ran. *)
Theorem run_to_convergence_without_key fuel st v :
  has_required_keys (parameters (model st)) ->
  parameters (model st) !! "convergence_data_key" = Some v ->
  truthy v = false ->
  run_to_convergence stepper fuel st =
    (Raise (PyException "No convergence data key specified"), st) /\
  truthy VNone = false /\ truthy (VStr EmptyString) = false /\
  truthy (VInt 0) = false.
Proof.
  intros Hreq Hk Hv. split; [|done].
  assert (Hs : is_Some (parameters (model st) !! "convergence_std_dev")).
  { unfold has_required_keys in Hreq. rewrite Forall_forall in Hreq.
    apply Hreq. unfold required_keys. set_solver. }
  destruct Hs as [s Hs].
  rewrite (run_to_convergence_unfold stepper fuel st v s Hk Hs).
  by rewrite Hv.
Qed.

(** The stepper never changes the bound. *)
Definition keeps_bound : Prop :=
  forall f ms, MAX_TIMESTEPS (stepper f ms).2.1 = MAX_TIMESTEPS ms.1.

Lemma converge_bounded fuel data_key std_dev :
  keeps_bound ->
  forall t st t' st',
    converge stepper fuel data_key std_dev t st = (Ok t', st') ->
    t <= t' <= Z.max t (MAX_TIMESTEPS (model st)).
Proof.
  intros Hkeep. induction fuel as [|fuel IH]; intros t st t' st' Hrun; [done|].
  rewrite converge_step in Hrun.
  destruct (Z.ltb_spec t (MAX_TIMESTEPS (model st))) as [Hlt|Hge];
    [|injection Hrun as <- <-; lia].
  destruct (is_converged_result data_key std_dev st) as [_ Hst1].
  destruct (is_converged data_key std_dev st) as [[[|]|e|] st1];
    [injection Hrun as <- <-; lia | | done..].
  destruct (timestep_state stepper st1) as [Hst2 _].
  destruct (timestep stepper st1) as [[[]|e|] st2]; [|done..].
  destruct (graph (model st2)) as [v|g] eqn:Hg; [done|].
  apply IH in Hrun. simpl in *.
  assert (Hmax : MAX_TIMESTEPS (model st2) = MAX_TIMESTEPS (model st)).
  { injection Hst1 as Hm _. rewrite <- Hm.
    destruct (timestep_function (model st1)) as [f|].
    - transitivity (MAX_TIMESTEPS (state_of st2).1); [done|].
      rewrite Hst2. apply Hkeep.
    - by injection Hst2 as -> _. }
  rewrite Hmax in Hrun. lia.
Qed.

(** The stepper always comes back, with a result or an exception. *)
Definition halts : Prop :=
  forall f ms, (stepper f ms).1 <> OutOfFuel.

Lemma collect_halts data_key ns : collect data_key ns <> OutOfFuel.
Proof.
  induction ns as [|[i r] ns IH]; simpl; [done|].
  destruct data_key; try done.
  destruct (r !! s); [|done].
  by destruct (collect (VStr s) ns).
Qed.

Lemma converged_halts data_key std_dev m : converged data_key std_dev m <> OutOfFuel.
Proof.
  unfold converged. destruct (graph m) as [v|g]; [done|].
  pose proof (collect_halts data_key (nodes g)) as Hc.
  destruct (collect data_key (nodes g)) as [vs|e|]; [|done..].
  by destruct (as_numbers vs), (numeric std_dev).
Qed.

Lemma timestep_keeps_bound st :
  keeps_bound ->
  MAX_TIMESTEPS (model (timestep stepper st).2) = MAX_TIMESTEPS (model st).
Proof.
  intros Hkeep. destruct (timestep_state stepper st) as [Hst _].
  change (MAX_TIMESTEPS (state_of (timestep stepper st).2).1 = MAX_TIMESTEPS (model st)).
  rewrite Hst. destruct (timestep_function (model st)) as [f|]; [apply Hkeep | done].
Qed.

Lemma timestep_halts st : halts -> (timestep stepper st).1 <> OutOfFuel.
Proof.
  intros Hhalt. destruct (timestep_function (model st)) as [f|] eqn:Hf.
  - rewrite (timestep_result stepper st f Hf). apply Hhalt.
  - unfold timestep. munfold. by rewrite Hf.
Qed.

Lemma converge_terminates data_key std_dev :
  keeps_bound -> halts ->
  forall fuel t st,
    (Z.to_nat (MAX_TIMESTEPS (model st) - t) < fuel)%nat ->
    (converge stepper fuel data_key std_dev t st).1 <> OutOfFuel.
Proof.
  intros Hkeep Hhalt. induction fuel as [|fuel IH]; intros t st Hfuel; [lia|].
  rewrite converge_step.
  destruct (Z.ltb_spec t (MAX_TIMESTEPS (model st))) as [Hlt|Hge]; [|done].
  destruct (is_converged_result data_key std_dev st) as [Hr Hst1].
  pose proof (converged_halts data_key std_dev (model st)) as Hc.
  destruct (is_converged data_key std_dev st) as [[[|]|e|] st1];
    [done | | done | by rewrite <- Hr in Hc].
  pose proof (timestep_keeps_bound st1 Hkeep) as Hmax.
  pose proof (timestep_halts st1 Hhalt) as Hts.
  destruct (timestep stepper st1) as [[[]|e|] st2]; [|done..].
  destruct (graph (model st2)) as [v|g] eqn:Hg; [done|].
  apply IH. simpl in *. injection Hst1 as Hm _. rewrite Hmax, Hm. lia.
Qed.

Lemma run_to_convergence_cases fuel st :
  run_to_convergence stepper fuel st =
    match parameters (model st) !! "convergence_data_key",
          parameters (model st) !! "convergence_std_dev" with
    | Some v, Some s =>
        if negb (truthy v)
        then (Raise (PyException "No convergence data key specified"), st)
        else match graph (model st) with
             | PGraph g => converge stepper fuel v s 0 (add_out [PrintBefore (nodes g)] st)
             | PVal _ => (Raise AttributeError, st)
             end
    | _, _ => (Raise KeyError, st)
    end.
Proof.
  destruct (parameters (model st) !! "convergence_data_key") as [v|] eqn:Hk.
  - destruct (parameters (model st) !! "convergence_std_dev") as [s|] eqn:Hs.
    + by apply run_to_convergence_unfold.
    + unfold run_to_convergence.
      unfold mbind at 1. unfold M_bind. rewrite (getitem_some _ _ _ Hk).
      unfold mbind at 1. unfold M_bind. unfold getitem. munfold. by rewrite Hs.
  - unfold run_to_convergence.
    unfold mbind at 1. unfold M_bind. unfold getitem at 1. munfold. by rewrite Hk.
Qed.

(** C3 (as amended).  With a stepper that leaves the bound alone, a
    convergence run started after [change_max_timesteps B] comes back
    within [B + 1] rounds of the loop, and a run that returns a time [t]
    has [0 <= t <= max 0 B]: the time is at most the bound when the bound
    is not negative.  With a zero or negative bound the run returns 0 at
    once; it has printed the nodes once and has neither stepped nor
    checked convergence. *)
Theorem run_to_convergence_within_bound (B : Z) fuel st :
  keeps_bound -> halts ->
  let st0 := (change_max_timesteps B st).2 in
  let r := run_to_convergence stepper fuel st0 in
  ((Z.to_nat B < fuel)%nat -> r.1 <> OutOfFuel) /\
  (forall t, r.1 = Ok t ->
     0 <= t <= Z.max 0 B /\
     (B <= 0 -> t = 0 /\
        exists g, graph (model st) = PGraph g /\
                  r.2 = add_out [PrintBefore (nodes g)] st0)).
Proof.
  intros Hkeep Hhalt st0 r. subst r. rewrite run_to_convergence_cases.
  destruct (parameters (model st0) !! "convergence_data_key") as [v|]; [|done].
  destruct (parameters (model st0) !! "convergence_std_dev") as [s|]; [|done].
  destruct (negb (truthy v)); [done|].
  change (graph (model st0)) with (graph (model st)).
  destruct (graph (model st)) as [x|g] eqn:Hg; [done|].
  set (st1 := add_out [PrintBefore (nodes g)] st0).
  split.
  - intros Hfuel. apply converge_terminates; [done..|]. simpl. 
    replace (B - 0) with B by lia. done.
  - intros t Ht.
    destruct (converge stepper fuel v s 0 st1) as [r st'] eqn:Hrun.
    simpl in Ht. subst r. split.
    + apply (converge_bounded _ _ _ Hkeep) in Hrun. simpl in Hrun. lia.
    + intros HB. destruct fuel as [|fuel]; [done|].
      rewrite converge_step in Hrun. simpl in Hrun.
      destruct (Z.ltb_spec 0 B) as [Hlt|_]; [lia|].
      injection Hrun as <- <-. split; [done|]. by exists g.
Qed.

Lemma timestep_ok st f :
  timestep_function (model st) = Some f ->
  (stepper f (state_of st)).1 = Ok tt ->
  exists st2, timestep stepper st = (Ok tt, st2) /\
              state_of st2 = step_state stepper (state_of st).
Proof.
  intros Hf Hok. pose proof (timestep_result stepper st f Hf) as Hr.
  destruct (timestep_state stepper st) as [Hst _].
  destruct (timestep stepper st) as [r st2]. simpl in *.
  exists st2. split; [congruence|].
  unfold step_state. simpl. by rewrite Hf in *.
Qed.

Lemma converge_first_time data_key std_dev (n : nat) :
  forall fuel t0 st,
    let B := MAX_TIMESTEPS (model st) in
    (forall i, (i <= n)%nat ->
       MAX_TIMESTEPS (state_at stepper i (state_of st)).1 = B /\
       exists g, graph (state_at stepper i (state_of st)).1 = PGraph g) ->
    (forall i, (i < n)%nat ->
       converged data_key std_dev (state_at stepper i (state_of st)).1 = Ok false /\
       exists f, timestep_function (state_at stepper i (state_of st)).1 = Some f /\
                 (stepper f (state_at stepper i (state_of st))).1 = Ok tt) ->
    ((0 < n)%nat -> t0 + Z.of_nat n <= B) ->
    (B <= t0 + Z.of_nat n \/
     converged data_key std_dev (state_at stepper n (state_of st)).1 = Ok true) ->
    (n < fuel)%nat ->
    (converge stepper fuel data_key std_dev t0 st).1 = Ok (t0 + Z.of_nat n) /\
    state_of (converge stepper fuel data_key std_dev t0 st).2 =
      state_at stepper n (state_of st).
Proof.
  induction n as [|n IH]; intros fuel t0 st B Hall Hbefore Hle Hend Hfuel;
    (destruct fuel as [|fuel]; [lia|]); rewrite converge_step; fold B.
  - replace (t0 + Z.of_nat 0) with t0 in * by lia.
    destruct (Z.ltb_spec t0 B) as [Hlt|Hge]; [|done].
    destruct Hend as [Hend|Hend]; [lia|]. simpl in Hend.
    destruct (is_converged_out _ _ _ _ Hend) as [xs ->]. done.
  - destruct (Z.ltb_spec t0 B) as [Hlt|Hge]; [|lia].
    destruct (Hbefore 0%nat ltac:(lia)) as [Hc (f & Hf & Hok)]. simpl in Hc, Hf, Hok.
    destruct (is_converged_out _ _ _ _ Hc) as [xs ->].
    set (st1 := add_out [PrintStd xs] st).
    destruct (timestep_ok st1 f Hf Hok) as (st2 & -> & Hst2).
    change (state_of st1) with (state_of st) in Hst2.
    destruct (Hall 1%nat ltac:(lia)) as [HB1 [g Hg]].
    change (state_at stepper 1 (state_of st)) with
      (step_state stepper (state_of st)) in HB1, Hg.
    rewrite <- Hst2 in HB1, Hg. simpl in HB1, Hg. rewrite Hg.
    set (st3 := add_out [PrintAfter (t0 + 1) (nodes g)] st2).
    assert (Hst3 : state_of st3 = step_state stepper (state_of st)) by done.
    replace (t0 + Z.of_nat (S n)) with (t0 + 1 + Z.of_nat n) in * by lia.
    rewrite state_at_succ, <- Hst3.
    apply IH.
    + intros i Hi. rewrite Hst3, <- state_at_succ.
      change (MAX_TIMESTEPS (model st3)) with (MAX_TIMESTEPS (model st2)).
      rewrite HB1. apply Hall. lia.
    + intros i Hi. rewrite Hst3, <- state_at_succ. apply Hbefore. lia.
    + intros Hn. change (MAX_TIMESTEPS (model st3)) with (MAX_TIMESTEPS (model st2)).
      rewrite HB1. fold B. lia.
    + change (MAX_TIMESTEPS (model st3)) with (MAX_TIMESTEPS (model st2)).
      rewrite HB1. fold B. rewrite Hst3, <- state_at_succ.
      destruct Hend as [Hend|Hend]; [left; lia | by right].
    + lia.
Qed.

(** C2 (as amended).  Let the model have a true [convergence_data_key],
    and let the stepper run without an exception and leave the bound [B]
    alone on the states the run visits.  If [n] is the first time whose
    state satisfies the convergence predicate, or [n = max 0 B] when no
    earlier state does, then [run_to_convergence] returns [n] after
    exactly [n] timesteps.  So it returns the bound when the bound is not
    negative and no state before it converged, and 0 when the bound is
    negative; when the first state already converged it returns 0 and the
    model is the one it started from. *)
Theorem run_to_convergence_first_time (n : nat) fuel st k s :
  parameters (model st) !! "convergence_data_key" = Some k ->
  truthy k = true ->
  parameters (model st) !! "convergence_std_dev" = Some s ->
  let B := MAX_TIMESTEPS (model st) in
  (forall i, (i <= n)%nat ->
     MAX_TIMESTEPS (state_at stepper i (state_of st)).1 = B /\
     exists g, graph (state_at stepper i (state_of st)).1 = PGraph g) ->
  (forall i, (i < n)%nat ->
     converged k s (state_at stepper i (state_of st)).1 = Ok false /\
     exists f, timestep_function (state_at stepper i (state_of st)).1 = Some f /\
               (stepper f (state_at stepper i (state_of st))).1 = Ok tt) ->
  Z.of_nat n <= Z.max 0 B ->
  (Z.of_nat n = Z.max 0 B \/
   converged k s (state_at stepper n (state_of st)).1 = Ok true) ->
  (n < fuel)%nat ->
  let r := run_to_convergence stepper fuel st in
  r.1 = Ok (Z.of_nat n) /\ state_of r.2 = state_at stepper n (state_of st).
Proof.
  intros Hk Htrue Hs B Hall Hbefore Hle Hend Hfuel r. subst r.
  rewrite (run_to_convergence_unfold stepper fuel st k s Hk Hs), Htrue. simpl.
  destruct (Hall 0%nat ltac:(lia)) as [_ [g Hg]]. simpl in Hg. rewrite Hg.
  set (st1 := add_out [PrintBefore (nodes g)] st).
  change (state_of st) with (state_of st1).
  change (Z.of_nat n) with (0 + Z.of_nat n).
  apply converge_first_time; try done.
  - intros Hn. change (MAX_TIMESTEPS (model st1)) with B. lia.
  - change (MAX_TIMESTEPS (model st1)) with B.
    destruct Hend as [Hend|Hend]; [left; lia | by right].
Qed.

End ConvergenceClaims.

(** ** The convergence predicate and the population standard deviation *)

(** The population standard deviation of a sample of real numbers, as the
    specification words it: the square root of the mean (the sum divided by
    the number [N] of values) of the squared deviations from the mean. *)
Definition Rsum (xs : list R) : R := fold_right Rplus 0%R xs.

Definition Rmean (xs : list R) : R := (Rsum xs / INR (length xs))%R.

Definition population_std (xs : list R) : R :=
  sqrt (Rsum (map (fun x => (x - Rmean xs) * (x - Rmean xs))%R xs) / INR (length xs)).

(** The sample standard deviation, which divides by [N - 1] instead. *)
Definition sample_std (xs : list R) : R :=
  sqrt (Rsum (map (fun x => (x - Rmean xs) * (x - Rmean xs))%R xs)
        / (INR (length xs) - 1)).

(** The numbers that the nodes hold in the field [k]. *)
Definition sample_at (k : string) (ns : list (Z * gmap string value)) : list Q :=
  omap (fun nd => nd.2 !! k ≫= numeric) ns.

(** Every node record holds a number in the field [k]. *)
Definition all_numeric_at (k : string) (ns : list (Z * gmap string value)) : Prop :=
  Forall (fun nd => exists v q, nd.2 !! k = Some v /\ numeric v = Some q) ns.

Section StdFacts.

Local Open Scope R_scope.

Lemma Q2R_zero : Q2R 0 = 0.
Proof. unfold Q2R. simpl. lra. Qed.

Lemma Q2R_Qsum xs : Q2R (Stats.Qsum xs) = Rsum (map Q2R xs).
Proof.
  induction xs as [|x xs IH]; simpl.
  - apply Q2R_zero.
  - rewrite Q2R_plus, IH. reflexivity.
Qed.

Lemma Q2R_of_nat n : Q2R (inject_Z (Z.of_nat n)) = INR n.
Proof. unfold Q2R. simpl. rewrite INR_IZR_INZ. lra. Qed.

Lemma inject_length_nonzero {A} (xs : list A) :
  xs <> [] -> ~ (inject_Z (Z.of_nat (length xs)) == 0)%Q.
Proof.
  intros Hne Heq. unfold Qeq in Heq. simpl in Heq.
  destruct xs; [done|]. simpl in Heq. lia.
Qed.

Lemma Q2R_mean xs : xs <> [] -> Q2R (Stats.mean xs) = Rmean (map Q2R xs).
Proof.
  intros Hne. unfold Stats.mean, Rmean.
  rewrite Q2R_div by (by apply inject_length_nonzero).
  rewrite Q2R_Qsum, Q2R_of_nat, length_map. reflexivity.
Qed.

Lemma Q2R_variance xs :
  xs <> [] ->
  Q2R (Stats.variance xs) =
    Rsum (map (fun x => (x - Rmean (map Q2R xs)) * (x - Rmean (map Q2R xs)))
              (map Q2R xs)) / INR (length (map Q2R xs)).
Proof.
  intros Hne. unfold Stats.variance.
  rewrite Q2R_mean by (by destruct xs).
  unfold Rmean at 1. rewrite !length_map. f_equal. f_equal.
  rewrite !map_map. apply map_ext. intros x.
  rewrite Q2R_mult, Q2R_minus, Q2R_mean by done. reflexivity.
Qed.

Lemma Rsum_squares_nonneg (c : R) xs :
  0 <= Rsum (map (fun x => (x - c) * (x - c)) xs).
Proof.
  induction xs as [|x xs IH]; simpl; [lra|].
  pose proof (Rle_0_sqr (x - c)) as Hsq. unfold Rsqr in Hsq. lra.
Qed.

Lemma sqrt_le_iff (V S : R) :
  0 <= V -> (sqrt V <= S <-> 0 <= S /\ V <= S * S).
Proof.
  intros HV. split.
  - intros Hle. pose proof (sqrt_pos V) as Hpos. split; [lra|].
    rewrite <- (sqrt_sqrt V HV). apply Rmult_le_compat; lra.
  - intros [HS Hle]. rewrite <- (sqrt_square S HS). by apply sqrt_le_1_alt.
Qed.

(** The test on the squares decides the comparison of the population
    standard deviation with the threshold. *)
Lemma std_le_correct (xs : list Q) (s : Q) :
  xs <> [] ->
  Stats.std_le xs s = true <-> population_std (map Q2R xs) <= Q2R s.
Proof.
  intros Hne. unfold population_std.
  rewrite <- Q2R_variance by done.
  assert (HV : 0 <= Q2R (Stats.variance xs)).
  { rewrite Q2R_variance by done. apply Rmult_le_pos.
    - apply Rsum_squares_nonneg.
    - left. apply Rinv_0_lt_compat. apply lt_0_INR.
      rewrite length_map. destruct xs; [done | simpl; lia]. }
  rewrite (sqrt_le_iff _ _ HV).
  unfold Stats.std_le. destruct xs as [|x xs]; [done|].
  rewrite andb_true_iff, !Qle_bool_iff. split.
  - intros [H0 Hv]. apply Qle_Rle in H0, Hv.
    rewrite Q2R_zero in H0. rewrite Q2R_mult in Hv. done.
  - intros [H0 Hv]. split; apply Rle_Qle.
    + by rewrite Q2R_zero.
    + by rewrite Q2R_mult.
Qed.

End StdFacts.

(** Three nodes that all hold [id = 5]. *)
Definition fives_graph : Graph :=
  {| nodes := [(0, {["id" := VInt 5]}); (1, {["id" := VInt 5]});
               (2, {["id" := VInt 5]})];
     edges := [(0, 1); (0, 2); (1, 2)] |}.

Section ConvergedClaims.

Context {W : Type}.
Implicit Types (st : St W).

Lemma collect_sample k ns :
  all_numeric_at k ns ->
  exists vs, collect (VStr k) ns = Ok vs /\ as_numbers vs = Some (sample_at k ns).
Proof.
  induction 1 as [|[i r] ns (v & q & Hv & Hq) Hall (vs & Hvs & Hnum)].
  - by exists [].
  - exists (v :: vs). simpl in *. rewrite Hv, Hvs. split; [done|].
    unfold sample_at in *. simpl. rewrite Hq, Hnum. reflexivity.
Qed.

Lemma sample_at_nonempty k ns :
  all_numeric_at k ns -> ns <> [] -> sample_at k ns <> [].
Proof.
  intros Hall Hne. destruct Hall as [|[i r] ns (v & q & Hv & Hq) Hall]; [done|].
  unfold sample_at. simpl in *. rewrite Hv. simpl. by rewrite Hq.
Qed.

(** The two examples of the specification: the values [5, 5, 5] with the
    threshold 0 have converged, the values [1, 100] with the threshold 10
    have not. *)
Lemma is_converged_examples :
  (is_converged (VStr "id") (VInt 0) (ready fives_graph (VInt 0) 10)).1 = Ok true /\
  (is_converged (VStr "id") (VInt 10) (ready split_graph (VInt 10) 10)).1 = Ok false.
Proof. split; reflexivity. Qed.

(** A node without the field is a lookup error, a value that is not a
    number a type error, and a graph without nodes has not converged. *)
Lemma is_converged_failures :
  (is_converged (VStr "age") (VInt 0) (ready fives_graph (VInt 0) 10)).1 = Raise KeyError /\
  (is_converged (VStr "id") (VInt 0)
     (ready {| nodes := [(0, {["id" := VStr "a"]})]; edges := [] |} (VInt 0) 10)).1
    = Raise TypeError /\
  (is_converged (VStr "id") (VInt 0)
     (ready {| nodes := []; edges := [] |} (VInt 0) 10)).1 = Ok false.
Proof. repeat split; reflexivity. Qed.

End ConvergedClaims.

(** Dividing by [N - 1] would answer differently: the values [1, 3] are
    within the threshold 1 for the code, and their sample standard
    deviation is the square root of 2. *)
Lemma population_std_is_not_sample_std :
  Stats.std_le [1#1; 3#1]%Q 1 = true /\
  ~ (sample_std (map Q2R [1#1; 3#1]%Q) <= Q2R 1)%R.
Proof.
  split; [reflexivity|].
  unfold sample_std, Rmean, Rsum, Q2R. simpl.
  replace ((1 * / 1 - (1 * / 1 + (3 * / 1 + 0)) / (1 + 1)) *
           (1 * / 1 - (1 * / 1 + (3 * / 1 + 0)) / (1 + 1)) +
           ((3 * / 1 - (1 * / 1 + (3 * / 1 + 0)) / (1 + 1)) *
            (3 * / 1 - (1 * / 1 + (3 * / 1 + 0)) / (1 + 1)) + 0))%R
    with 2%R by lra.
  replace ((1 + 1 - 1))%R with 1%R by lra.
  replace (2 / 1)%R with 2%R by lra. replace (1 * / 1)%R with 1%R by lra.
  intros Hle. pose proof (sqrt_lt_1_alt 1 2 ltac:(lra)) as Hlt.
  rewrite sqrt_1 in Hlt. lra.
Qed.

(** ** The topologies of the provider *)

(** An edge with its smaller end first: two edges are the same undirected
    edge when they agree on it. *)
Definition norm_edge (e : Z * Z) : Z * Z := (Z.min e.1 e.2, Z.max e.1 e.2).

Section ProviderFacts.

Import GraphProvider.

Lemma same_edge_norm e1 e2 : same_edge e1 e2 = true <-> norm_edge e1 = norm_edge e2.
Proof.
  destruct e1 as [a b], e2 as [c d]. unfold same_edge, norm_edge. simpl.
  rewrite orb_true_iff, !andb_true_iff, !Z.eqb_eq. split.
  - intros [[-> ->]|[-> ->]]; f_equal; lia.
  - intros [= Hmin Hmax]. lia.
Qed.

Lemma has_edge_norm e es : has_edge e es = true <-> In (norm_edge e) (map norm_edge es).
Proof.
  unfold has_edge. rewrite existsb_exists, in_map_iff. split.
  - intros (x & Hx & Hs). exists x. split; [|done]. symmetry. by apply same_edge_norm.
  - intros (x & Hx & Hin). exists x. split; [done|]. by apply same_edge_norm.
Qed.

Lemma add_edges_nodes es g : nodes (add_edges_from es g) = nodes g.
Proof.
  unfold add_edges_from. revert g. induction es as [|e es IH]; intros g; [done|].
  simpl. rewrite IH. unfold add_edge. by destruct (has_edge e (edges g)).
Qed.

(** Edges that are new and distinct are all added, in order. *)
Lemma add_edges_fresh es : forall g,
  NoDup (map norm_edge (edges g ++ es)) ->
  edges (add_edges_from es g) = edges g ++ es.
Proof.
  unfold add_edges_from. induction es as [|e es IH]; intros g Hnd; simpl.
  - by rewrite app_nil_r.
  - assert (Hfresh : has_edge e (edges g) = false).
    { destruct (has_edge e (edges g)) eqn:He; [|done].
      apply has_edge_norm, list_elem_of_In in He.
      rewrite map_app in Hnd. simpl in Hnd.
      apply NoDup_app in Hnd as (_ & Hdisj & _).
      exfalso. apply (Hdisj _ He). by left. }
    unfold add_edge at 2. rewrite Hfresh. rewrite IH; simpl.
    + by rewrite <- app_assoc.
    + by rewrite <- app_assoc.
Qed.

Lemma in_range (x n : Z) : In x (range n) <-> 0 <= x < n.
Proof.
  unfold range. rewrite in_map_iff. split.
  - intros (i & <- & Hi). apply in_seq in Hi. lia.
  - intros Hx. exists (Z.to_nat x). split; [lia|]. apply in_seq. lia.
Qed.

Lemma length_range (n : Z) : length (range n) = Z.to_nat n.
Proof. unfold range. by rewrite length_map, length_seq. Qed.

(** The pairs of [combinations2] over consecutive numbers are increasing
    pairs inside the interval. *)
Lemma in_combinations2_seq a n x y :
  In (x, y) (combinations2 (map Z.of_nat (seq a n))) <->
  Z.of_nat a <= x < y /\ y < Z.of_nat (a + n).
Proof.
  revert a. induction n as [|n IH]; intros a; simpl.
  - split; [done | lia].
  - rewrite in_app_iff, IH, in_map_iff. split.
    + intros [(z & [= <- <-] & Hz)|H]; [|lia].
      apply in_map_iff in Hz as (i & <- & Hi). apply in_seq in Hi. lia.
    + intros [Hx Hy]. destruct (decide (x = Z.of_nat a)) as [->|Hne]; [left | right; lia].
      exists y. split; [done|]. apply in_map_iff. exists (Z.to_nat y).
      split; [lia|]. apply in_seq. lia.
Qed.

Lemma NoDup_combinations2_seq a n :
  NoDup (combinations2 (map Z.of_nat (seq a n))).
Proof.
  revert a. induction n as [|n IH]; intros a; simpl; [constructor|].
  apply NoDup_app. split; [|split].
  - apply (NoDup_fmap_2 (pair (Z.of_nat a))).
    apply (NoDup_fmap_2 Z.of_nat). apply NoDup_seq.
  - intros [x y] Hin Hin'. apply list_elem_of_In in Hin, Hin'.
    apply in_map_iff in Hin as (z & [= <- <-] & _).
    apply in_combinations2_seq in Hin'. lia.
  - apply IH.
Qed.

Lemma norm_combinations2_seq a n :
  map norm_edge (combinations2 (map Z.of_nat (seq a n))) =
  combinations2 (map Z.of_nat (seq a n)).
Proof.
  rewrite <- (map_id (combinations2 _)) at 2. apply map_ext_in.
  intros [x y] Hin. apply in_combinations2_seq in Hin.
  unfold norm_edge. simpl. f_equal; lia.
Qed.

Lemma length_combinations2 (l : list Z) :
  (2 * length (combinations2 l) = length l * (length l - 1))%nat.
Proof.
  induction l as [|x l IH]; simpl; [done|].
  rewrite length_app, length_map. nia.
Qed.

Lemma combine_seq_shift a m c :
  combine (map Z.of_nat (seq a (S m))) (map Z.of_nat (seq (S a) m) ++ [c]) =
  map (fun i => (i, i + 1)) (map Z.of_nat (seq a m)) ++ [(Z.of_nat (a + m), c)].
Proof.
  revert a. induction m as [|m IH]; intros a.
  - simpl. by rewrite Nat.add_0_r.
  - change (seq a (S (S m))) with (a :: seq (S a) (S m)).
    change (seq (S a) (S m)) with (S a :: seq (S (S a)) m) at 2.
    change (seq a (S m)) with (a :: seq (S a) m).
    cbn [map app combine]. rewrite IH. f_equal.
    + f_equal. lia.
    + do 3 f_equal. lia.
Qed.

Lemma pairwise_cyclic_range (n : Z) :
  1 <= n ->
  pairwise_cyclic (range n) = map (fun i => (i, i + 1)) (range (n - 1)) ++ [(n - 1, 0)].
Proof.
  intros Hn. unfold range.
  replace (Z.to_nat n) with (S (Z.to_nat (n - 1))) by lia.
  set (m := Z.to_nat (n - 1)).
  change (pairwise_cyclic (map Z.of_nat (seq 0 (S m)))) with
    (combine (map Z.of_nat (seq 0 (S m))) (map Z.of_nat (seq 1 m) ++ [0])).
  rewrite combine_seq_shift. do 3 f_equal. lia.
Qed.

Lemma NoDup_pairwise_cyclic_range (n : Z) :
  3 <= n -> NoDup (map norm_edge (pairwise_cyclic (range n))).
Proof.
  intros Hn. rewrite pairwise_cyclic_range by lia.
  rewrite map_app, map_map. simpl.
  replace (map (fun x => norm_edge (x, x + 1)) (range (n - 1)))
    with (map (fun x => (x, x + 1)) (range (n - 1))).
  - apply NoDup_app. split; [|split].
    + assert (Hinj : Inj (=) (=) (fun x : Z => (x, x + 1))) by (by intros x y [= ->]).
      apply (NoDup_fmap_2 (fun x => (x, x + 1))).
      unfold range. apply (NoDup_fmap_2 Z.of_nat), NoDup_seq.
    + intros [x y] Hin Hin'. apply list_elem_of_In in Hin.
      apply in_map_iff in Hin as (i & [= <- <-] & Hi). apply in_range in Hi.
      apply list_elem_of_singleton in Hin'. unfold norm_edge in Hin'. simpl in Hin'.
      injection Hin' as H1 H2. lia.
    + apply NoDup_singleton.
  - apply map_ext_in. intros x Hx. apply in_range in Hx.
    unfold norm_edge. simpl. f_equal; lia.
Qed.

Lemma complete_graph_ok (n : Z) :
  0 <= n ->
  exists g, complete_graph (VInt n) = Ok g /\
    nodes g = map (fun i => (i, ∅)) (range n) /\
    edges g = combinations2 (range n).
Proof.
  intros Hn. unfold complete_graph, nodes_or_number.
  destruct (Z.ltb_spec n 0) as [?|_]; [lia|].
  destruct (1 <? Z.of_nat (length (range n))) eqn:Hlen.
  - eexists. split; [done|]. split; [by rewrite add_edges_nodes|].
    rewrite add_edges_fresh; [done|]. simpl. unfold range.
    rewrite norm_combinations2_seq. apply NoDup_combinations2_seq.
  - eexists. split; [done|]. split; [done|]. simpl.
    apply Z.ltb_ge in Hlen. by destruct (range n) as [|x [|y l]]; [..|simpl in Hlen; lia].
Qed.

Lemma cycle_graph_ok (n : Z) :
  0 <= n ->
  exists g, cycle_graph (VInt n) = Ok g /\
    nodes g = map (fun i => (i, ∅)) (range n) /\
    (3 <= n -> edges g = pairwise_cyclic (range n)).
Proof.
  intros Hn. unfold cycle_graph, nodes_or_number.
  destruct (Z.ltb_spec n 0) as [?|_]; [lia|].
  eexists. split; [done|]. split; [by rewrite add_edges_nodes|].
  intros H3. rewrite add_edges_fresh; [done|]. simpl.
  by apply NoDup_pairwise_cyclic_range.
Qed.

Lemma wheel_graph_ok (n : Z) :
  0 <= n ->
  exists g, wheel_graph (VInt n) = Ok g /\
    nodes g = map (fun i => (i, ∅)) (range n).
Proof.
  intros Hn. unfold wheel_graph, nodes_or_number.
  destruct (Z.ltb_spec n 0) as [?|_]; [lia|].
  eexists. split; [done|].
  destruct (range n) as [|hub rim]; [done|].
  destruct (1 <? Z.of_nat (length (hub :: rim))); [|done].
  destruct (1 <? Z.of_nat (length rim)); by rewrite !add_edges_nodes.
Qed.

Lemma provider_refuses_negative (n : Z) :
  n < 0 ->
  complete_graph (VInt n) = Raise NetworkXError /\
  cycle_graph (VInt n) = Raise NetworkXError /\
  wheel_graph (VInt n) = Raise NetworkXError.
Proof.
  intros Hn. unfold complete_graph, cycle_graph, wheel_graph, nodes_or_number.
  by destruct (Z.ltb_spec n 0) as [_|?]; [|lia].
Qed.

(** An edge that is asked for is there afterwards, and so is every edge
    that was there before. *)
Lemma has_edge_add_edge g e e' :
  has_edge e' (edges g) = true \/ same_edge e' e = true ->
  has_edge e' (edges (add_edge g e)) = true.
Proof.
  intros H. unfold add_edge. destruct (has_edge e (edges g)) eqn:He.
  - destruct H as [H|H]; [done|].
    apply has_edge_norm. apply same_edge_norm in H. rewrite H.
    by apply has_edge_norm.
  - simpl. unfold has_edge in *. rewrite existsb_app. simpl.
    destruct H as [-> | ->]; [done|]. by rewrite orb_true_r.
Qed.

Lemma same_edge_refl e : same_edge e e = true.
Proof. by apply same_edge_norm. Qed.

Lemma has_edge_add_edges es : forall g e',
  has_edge e' (edges g) = true \/ In e' es ->
  has_edge e' (edges (add_edges_from es g)) = true.
Proof.
  unfold add_edges_from. induction es as [|e es IH]; intros g e' H; simpl.
  - by destruct H.
  - apply IH. destruct H as [H|[-> |H]].
    + left. apply has_edge_add_edge. by left.
    + left. apply has_edge_add_edge. right. apply same_edge_refl.
    + by right.
Qed.

Lemma range_cons (n : Z) :
  1 <= n -> range n = 0 :: map Z.of_nat (seq 1 (Z.to_nat (n - 1))).
Proof.
  intros Hn. unfold range.
  replace (Z.to_nat n) with (S (Z.to_nat (n - 1))) by lia. reflexivity.
Qed.

(** The rim of the wheel: the nodes [1 .. n-1], each joined to the next
    and the last to the first. *)
Lemma pairwise_cyclic_rim (n : Z) :
  2 <= n ->
  pairwise_cyclic (map Z.of_nat (seq 1 (Z.to_nat (n - 1)))) =
    map (fun i => (i, i + 1)) (map Z.of_nat (seq 1 (Z.to_nat (n - 2)))) ++ [(n - 1, 1)].
Proof.
  intros Hn. replace (Z.to_nat (n - 1)) with (S (Z.to_nat (n - 2))) by lia.
  set (m := Z.to_nat (n - 2)).
  change (pairwise_cyclic (map Z.of_nat (seq 1 (S m)))) with
    (combine (map Z.of_nat (seq 1 (S m))) (map Z.of_nat (seq 2 m) ++ [1])).
  rewrite combine_seq_shift. do 3 f_equal. lia.
Qed.

Lemma in_rim (x n : Z) :
  In x (map Z.of_nat (seq 1 (Z.to_nat (n - 1)))) <-> 1 <= x < n.
Proof.
  rewrite in_map_iff. split.
  - intros (i & <- & Hi). apply in_seq in Hi. lia.
  - intros Hx. exists (Z.to_nat x). split; [lia|]. apply in_seq. lia.
Qed.

Lemma NoDup_wheel_edges (n : Z) :
  4 <= n ->
  NoDup (map norm_edge
           (map (pair 0) (map Z.of_nat (seq 1 (Z.to_nat (n - 1)))) ++
            pairwise_cyclic (map Z.of_nat (seq 1 (Z.to_nat (n - 1)))))).
Proof.
  intros Hn. rewrite pairwise_cyclic_rim by lia.
  assert (Hid : forall l : list (Z * Z),
             (forall e, In e l -> e.1 <= e.2) -> map norm_edge l = l).
  { intros l Hl. rewrite <- (map_id l) at 2. apply map_ext_in.
    intros [x y] Hin. apply Hl in Hin. simpl in Hin. unfold norm_edge. simpl.
    f_equal; lia. }
  rewrite !map_app.
  rewrite (Hid (map (pair 0) _)).
  2:{ intros e He. apply in_map_iff in He as (x & <- & Hx).
      apply in_rim in Hx. simpl. lia. }
  rewrite (Hid (map (fun i => (i, i + 1)) _)).
  2:{ intros e He. apply in_map_iff in He as (x & <- & Hx). simpl. lia. }
  simpl map.
  assert (Hinj : Inj (=) (=) (fun x : Z => (x, x + 1))) by (by intros x y [= ->]).
  apply NoDup_app. split; [|split].
  - apply (NoDup_fmap_2 (pair 0)). apply (NoDup_fmap_2 Z.of_nat), NoDup_seq.
  - intros [x y] Hin Hin'. apply list_elem_of_In in Hin.
    apply in_map_iff in Hin as (j & [= <- <-] & Hj). apply in_rim in Hj.
    apply elem_of_app in Hin' as [Hin'|Hin'].
    + apply list_elem_of_In, in_map_iff in Hin' as (i & [= Hi _] & Hi').
      apply in_map_iff in Hi' as (i' & <- & Hi'). apply in_seq in Hi'. lia.
    + apply list_elem_of_singleton in Hin'. unfold norm_edge in Hin'. simpl in Hin'.
      injection Hin' as H1 H2. lia.
  - apply NoDup_app. split; [|split].
    + apply (NoDup_fmap_2 (fun x => (x, x + 1))).
      apply (NoDup_fmap_2 Z.of_nat), NoDup_seq.
    + intros [x y] Hin Hin'. apply list_elem_of_In in Hin.
      apply in_map_iff in Hin as (i & [= <- <-] & Hi).
      apply in_map_iff in Hi as (i' & <- & Hi'). apply in_seq in Hi'.
      apply list_elem_of_singleton in Hin'. unfold norm_edge in Hin'. simpl in Hin'.
      injection Hin' as H1 H2. lia.
    + apply NoDup_singleton.
Qed.

(** The wheel on [n >= 2] nodes: the hub 0 is joined to every other node;
    from three nodes on every rim node is joined to the next rim node and
    the last to the first; from four nodes on these [2 (n - 1)] edges are
    all distinct. *)
Lemma wheel_graph_edges (n : Z) :
  2 <= n ->
  exists g, wheel_graph (VInt n) = Ok g /\
    (forall j, 1 <= j < n -> has_edge (0, j) (edges g) = true) /\
    (3 <= n -> forall j, 1 <= j < n ->
       has_edge (j, if j =? n - 1 then 1 else j + 1) (edges g) = true) /\
    (4 <= n -> Z.of_nat (length (edges g)) = 2 * (n - 1)).
Proof.
  intros Hn. unfold wheel_graph, nodes_or_number.
  destruct (Z.ltb_spec n 0) as [?|_]; [lia|].
  rewrite range_cons by lia.
  set (rim := map Z.of_nat (seq 1 (Z.to_nat (n - 1)))).
  assert (Hlen : length rim = Z.to_nat (n - 1)).
  { unfold rim. by rewrite length_map, length_seq. }
  assert (Hl1 : (1 <? Z.of_nat (length (0 :: rim))) = true).
  { apply Z.ltb_lt. simpl length. lia. }
  rewrite Hl1.
  set (g0 := empty_graph (0 :: rim)).
  set (g1 := add_edges_from (map (pair 0) rim) g0).
  assert (Hhub : forall j, 1 <= j < n -> has_edge (0, j) (edges g1) = true).
  { intros j Hj. apply has_edge_add_edges. right.
    apply in_map_iff. exists j. split; [done|]. by apply in_rim. }
  destruct (Z.ltb_spec 1 (Z.of_nat (length rim))) as [Hrim|Hrim].
  - eexists. split; [reflexivity|]. split; [|split].
    + intros j Hj. apply has_edge_add_edges. left. by apply Hhub.
    + intros _ j Hj. apply has_edge_add_edges. right.
      unfold rim. rewrite pairwise_cyclic_rim by lia. apply in_or_app.
      destruct (Z.eqb_spec j (n - 1)) as [->|Hne].
      * right. by left.
      * left. apply in_map_iff. exists j. split; [done|].
        apply in_map_iff. exists (Z.to_nat j). split; [lia|]. apply in_seq. lia.
    + intros H4. pose proof (NoDup_wheel_edges n H4) as Hnd. fold rim in Hnd.
      rewrite map_app in Hnd.
      assert (He1 : edges g1 = map (pair 0) rim).
      { unfold g1. rewrite add_edges_fresh; [done|]. simpl.
        by apply NoDup_app in Hnd as (Hnd1 & _). }
      rewrite add_edges_fresh.
      * rewrite He1, length_app, length_map, Hlen.
        unfold rim. rewrite pairwise_cyclic_rim by lia.
        rewrite length_app, !length_map, length_seq. simpl. lia.
      * by rewrite He1, map_app.
  - eexists. split; [reflexivity|]. split; [done|]. split; intros; lia.
Qed.

End ProviderFacts.

(** ** Initialization *)

(** The graph that [initialize_graph] asks the provider for. *)
Definition build (graph_type num_nodes : value) : Res Graph :=
  if eq_str graph_type "complete" then GraphProvider.complete_graph num_nodes
  else if eq_str graph_type "cycle" then GraphProvider.cycle_graph num_nodes
  else GraphProvider.wheel_graph num_nodes.

(** A graph without its node records. *)
Definition topology (g : Graph) : Graph :=
  {| nodes := map (fun nd => (nd.1, ∅)) (nodes g); edges := edges g |}.

(** [graph_type == s] holds for the string [s] and for nothing else. *)
Lemma eq_str_true (v : value) (s : string) : eq_str v s = true <-> v = VStr s.
Proof.
  destruct v as [|z|q|t]; simpl; try (split; [discriminate|discriminate]).
  rewrite String.eqb_eq. split; [by intros -> | by intros [= ->]].
Qed.

Lemma eq_str_false (v : value) (s : string) : eq_str v s = false <-> v <> VStr s.
Proof.
  rewrite <- eq_str_true. by destruct (eq_str v s).
Qed.

Section InitializeClaims.

Context {W : Type}.
Variable initializer : callable -> Callable (W:=W) (gmap string value).
Implicit Types (st : St W) (ms : AgentModel * W).

(** The initializer returns its record and leaves the model alone. *)
Definition keeps_model : Prop :=
  forall f ms, (initializer f ms).2.1 = ms.1.

Lemma initialize_graph_unfold st n ty :
  parameters (model st) !! "num_nodes" = Some n ->
  parameters (model st) !! "graph_type" = Some ty ->
  initialize_graph initializer st =
    match build ty n with
    | Ok g =>
        if negb (bool_decide (is_Some (initial_data_function (model st))))
        then (Raise (PyException "Initial data function is not set."),
              set_graph_var (PGraph g) st)
        else populate initializer (map fst (nodes g)) (set_graph_var (PGraph g) st)
    | Raise e => (Raise e, st)
    | OutOfFuel => (OutOfFuel, st)
    end.
Proof.
  intros Hn Hty. unfold initialize_graph.
  unfold mbind at 1. unfold M_bind. rewrite (getitem_some _ _ _ Hn).
  unfold mbind at 1. unfold M_bind. rewrite (getitem_some _ _ _ Hty).
  fold (build ty n). munfold. destruct (build ty n) as [g|e|]; [|done..].
  simpl. by destruct (negb (bool_decide (is_Some (initial_data_function (model st))))).
Qed.

Lemma populate_step node rest st :
  populate initializer (node :: rest) st =
    match initial_data_function (model st) with
    | None => (Raise TypeError, st)
    | Some f =>
        match invoke (initializer f) st with
        | (Ok data, st1) =>
            match graph (model st1) with
            | PVal _ => (Raise AttributeError, st1)
            | PGraph g =>
                match update_node node data (nodes g) with
                | None => (Raise KeyError, st1)
                | Some ns' =>
                    populate initializer rest
                      (set_graph_var (PGraph {| nodes := ns'; edges := edges g |}) st1)
                end
            end
        | (Raise e, st1) => (Raise e, st1)
        | (OutOfFuel, st1) => (OutOfFuel, st1)
        end
    end.
Proof.
  simpl. munfold. destruct (initial_data_function (model st)) as [f|]; [|done].
  destruct (invoke (initializer f) st) as [[data|e|] st1]; [|done..].
  destruct (graph (model st1)) as [v|g]; [done|].
  by destruct (update_node node data (nodes g)).
Qed.

Lemma invoke_keeps_model f st :
  keeps_model -> model (invoke (initializer f) st).2 = model st.
Proof.
  intros Hkeep. unfold invoke. specialize (Hkeep f (model st, env st)).
  by destruct (initializer f (model st, env st)) as [r [m w]].
Qed.

Lemma update_node_fst node data ns ns' :
  update_node node data ns = Some ns' -> map fst ns' = map fst ns.
Proof.
  revert ns'. induction ns as [|[i r] ns IH]; intros ns' H; simpl in H; [done|].
  destruct (i =? node); [by injection H as <-|].
  destruct (update_node node data ns) as [rest|]; [|done].
  injection H as <-. simpl. by rewrite (IH rest).
Qed.

(** The loop over the nodes changes records only. *)
Lemma populate_topology ns : forall st g,
  keeps_model ->
  graph (model st) = PGraph g ->
  (populate initializer ns st).1 = Ok tt ->
  exists g', graph (model (populate initializer ns st).2) = PGraph g' /\
             map fst (nodes g') = map fst (nodes g) /\ edges g' = edges g.
Proof.
  induction ns as [|node rest IH]; intros st g Hkeep Hg Hok.
  - by exists g.
  - rewrite populate_step in Hok |- *.
    destruct (initial_data_function (model st)) as [f|]; [|done].
    pose proof (invoke_keeps_model f st Hkeep) as Hm.
    destruct (invoke (initializer f) st) as [[data|e|] st1]; [|done..].
    simpl in Hm. rewrite Hm, Hg in Hok |- *.
    destruct (update_node node data (nodes g)) as [ns'|] eqn:Hupd; [|done].
    destruct (IH (set_graph_var (PGraph {| nodes := ns'; edges := edges g |}) st1)
                {| nodes := ns'; edges := edges g |} Hkeep eq_refl Hok)
      as (g' & Hg' & Hn' & He').
    exists g'. split; [done|]. split; [|done].
    rewrite Hn'. simpl. by apply update_node_fst in Hupd.
Qed.

(** C7.  Let [num_nodes] be the integer [N] and let the initializer leave
    the model alone.  A successful [initialize_graph] leaves a graph with
    exactly the nodes [0 .. N-1] (so [0 <= N] nodes).  When [graph_type] is
    the string ["complete"] it is the provider's complete graph: [N (N - 1) / 2]
    edges, every two distinct nodes connected.  When [graph_type] is the
    string ["cycle"] it is the provider's cycle graph: for [N >= 3], [N]
    edges that join each node to the next and the last to the first.  For
    every other value of [graph_type] it is the provider's wheel graph: the
    hub 0 is joined to every other node, for [N >= 3] every other node is
    joined to the next one around the rim [1 .. N-1], and for [N >= 4] these
    are [2 (N - 1)] edges. *)
Theorem initialize_graph_topology st (N : Z) (ty : value) :
  keeps_model ->
  parameters (model st) !! "num_nodes" = Some (VInt N) ->
  parameters (model st) !! "graph_type" = Some ty ->
  (initialize_graph initializer st).1 = Ok tt ->
  exists g,
    graph (model (initialize_graph initializer st).2) = PGraph g /\
    0 <= N /\
    map fst (nodes g) = GraphProvider.range N /\
    Z.of_nat (length (nodes g)) = N /\
    (ty = VStr "complete" ->
       Ok (topology g) = GraphProvider.complete_graph (VInt N) /\
       2 * Z.of_nat (length (edges g)) = N * (N - 1) /\
       forall i j, 0 <= i < N -> 0 <= j < N -> i <> j ->
         GraphProvider.has_edge (i, j) (edges g) = true) /\
    (ty = VStr "cycle" ->
       Ok (topology g) = GraphProvider.cycle_graph (VInt N) /\
       (3 <= N ->
          Z.of_nat (length (edges g)) = N /\
          forall i, 0 <= i < N ->
            GraphProvider.has_edge (i, (i + 1) mod N) (edges g) = true)) /\
    (ty <> VStr "complete" -> ty <> VStr "cycle" ->
       Ok (topology g) = GraphProvider.wheel_graph (VInt N) /\
       (forall j, 1 <= j < N -> GraphProvider.has_edge (0, j) (edges g) = true) /\
       (3 <= N -> forall j, 1 <= j < N ->
          GraphProvider.has_edge (j, if j =? N - 1 then 1 else j + 1) (edges g) = true) /\
       (4 <= N -> Z.of_nat (length (edges g)) = 2 * (N - 1))).
Proof.
  intros Hkeep Hn Hty Hok.
  rewrite (initialize_graph_unfold st _ _ Hn Hty) in Hok |- *.
  assert (HN : 0 <= N).
  { destruct (Z.le_gt_cases 0 N) as [|Hneg]; [done|]. exfalso.
    destruct (provider_refuses_negative N) as (Hc & Hy & Hw); [lia|].
    unfold build in Hok. rewrite Hc, Hy, Hw in Hok.
    by destruct (eq_str ty "complete"), (eq_str ty "cycle"). }
  assert (Hbuild : exists g0, build ty (VInt N) = Ok g0 /\
            nodes g0 = map (fun i => (i, ∅)) (GraphProvider.range N)).
  { unfold build.
    destruct (complete_graph_ok N HN) as (gc & Hc & Hcn & _).
    destruct (cycle_graph_ok N HN) as (gy & Hy & Hyn & _).
    destruct (wheel_graph_ok N HN) as (gw & Hw & Hwn).
    destruct (eq_str ty "complete"); [by exists gc|].
    destruct (eq_str ty "cycle"); [by exists gy | by exists gw]. }
  destruct Hbuild as (g0 & Hb & Hnodes0). rewrite Hb in Hok |- *.
  destruct (negb (bool_decide (is_Some (initial_data_function (model st)))));
    [done|].
  destruct (populate_topology (map fst (nodes g0)) (set_graph_var (PGraph g0) st)
              g0 Hkeep eq_refl Hok) as (g & Hg & Hfst & Hedges).
  assert (Hids : map fst (nodes g) = GraphProvider.range N).
  { rewrite Hfst, Hnodes0, map_map. simpl. apply map_id. }
  assert (Htop : topology g = g0).
  { unfold topology. rewrite Hedges. destruct g0 as [ns0 es0]. simpl in *. f_equal.
    rewrite Hnodes0, <- Hids, !map_map. done. }
  exists g. split; [done|]. split; [done|]. split; [done|]. split.
  { rewrite <- (length_map fst), Hids, length_range. lia. }
  unfold build in Hb. rewrite Htop, Hedges. split; [|split].
  - intros ->. change (eq_str (VStr "complete") "complete") with true in Hb.
    cbv iota in Hb.
    destruct (complete_graph_ok N HN) as (gc & Hgc & _ & Hec).
    rewrite Hgc in Hb. injection Hb as <-. split; [done|]. rewrite Hec. split.
    + pose proof (length_combinations2 (GraphProvider.range N)) as Hlen.
      rewrite length_range in Hlen. nia.
    + intros i j Hi Hj Hij. apply has_edge_norm, in_map_iff.
      unfold GraphProvider.range.
      exists (Z.min i j, Z.max i j). split.
      * unfold norm_edge. simpl. f_equal; lia.
      * apply in_combinations2_seq. lia.
  - intros ->. change (eq_str (VStr "cycle") "complete") with false in Hb.
    change (eq_str (VStr "cycle") "cycle") with true in Hb. cbv iota in Hb.
    destruct (cycle_graph_ok N HN) as (gy & Hgy & _ & Hey).
    rewrite Hgy in Hb. injection Hb as <-. split; [done|].
    intros H3. rewrite (Hey H3), pairwise_cyclic_range by lia. split.
    + rewrite length_app, length_map, length_range. simpl. lia.
    + intros i Hi. apply has_edge_norm, in_map_iff.
      exists (i, (i + 1) mod N). split; [done|]. apply in_or_app.
      destruct (decide (i = N - 1)) as [->|Hne].
      * right. left. f_equal. replace (N - 1 + 1) with N by lia.
        symmetry. apply Z_mod_same_full.
      * left. apply in_map_iff. exists i. split.
        -- f_equal. symmetry. apply Z.mod_small. lia.
        -- apply in_range. lia.
  - intros Hc Hy. apply eq_str_false in Hc, Hy. rewrite Hc, Hy in Hb.
    split; [done|].
    destruct (Z.le_gt_cases 2 N) as [H2|H2].
    + destruct (wheel_graph_edges N H2) as (gw & Hgw & Hhub & Hrim & Hcount).
      rewrite Hgw in Hb. injection Hb as <-. done.
    + split; [intros; lia|]. split; intros; lia.
Qed.

End InitializeClaims.

Section InitializeTotal.

Context {W : Type}.
Variable initializer : callable -> Callable (W:=W) (gmap string value).
Implicit Types (st : St W).

(** The initializer returns a record on every call. *)
Definition returns_record : Prop :=
  forall f ms, exists r, (initializer f ms).1 = Ok r.

Lemma update_node_some node data ns :
  In node (map fst ns) -> is_Some (update_node node data ns).
Proof.
  induction ns as [|[i r] ns IH]; simpl; [done|].
  intros [Hi|Hin]; destruct (Z.eqb_spec i node); try done; try (by eexists).
  destruct (IH Hin) as [rest ->]. by eexists.
Qed.

Lemma populate_succeeds ns : forall st g,
  keeps_model initializer -> returns_record ->
  is_Some (initial_data_function (model st)) ->
  graph (model st) = PGraph g ->
  (forall x, In x ns -> In x (map fst (nodes g))) ->
  (populate initializer ns st).1 = Ok tt.
Proof.
  induction ns as [|node rest IH]; intros st g Hkeep Hret [f Hf] Hg Hin; [done|].
  rewrite populate_step, Hf.
  pose proof (invoke_keeps_model initializer f st Hkeep) as Hm.
  destruct (Hret f (model st, env st)) as [data Hdata].
  assert (Hinv : (invoke (initializer f) st).1 = Ok data).
  { unfold invoke. by destruct (initializer f (model st, env st)) as [r [m w]]. }
  destruct (invoke (initializer f) st) as [r st1]. simpl in Hm, Hinv. subst r.
  rewrite Hm, Hg.
  destruct (update_node_some node data (nodes g)) as [ns' Hupd];
    [apply Hin; by left|].
  rewrite Hupd. apply (IH _ {| nodes := ns'; edges := edges g |}); try done.
  - simpl. rewrite Hm, Hf. by eexists.
  - intros x Hx. simpl. rewrite (update_node_fst _ _ _ _ Hupd). apply Hin. by right.
Qed.

(** With a count that is not negative and an initializer that returns a
    record on every call, [initialize_graph] succeeds. *)
Lemma initialize_graph_succeeds st (N : Z) (ty : value) :
  keeps_model initializer -> returns_record ->
  parameters (model st) !! "num_nodes" = Some (VInt N) ->
  parameters (model st) !! "graph_type" = Some ty ->
  is_Some (initial_data_function (model st)) ->
  0 <= N ->
  (initialize_graph initializer st).1 = Ok tt.
Proof.
  intros Hkeep Hret Hn Hty Hf HN.
  rewrite (initialize_graph_unfold initializer st _ _ Hn Hty).
  assert (Hbuild : exists g0, build ty (VInt N) = Ok g0).
  { unfold build.
    destruct (complete_graph_ok N HN) as (gc & Hc & _).
    destruct (cycle_graph_ok N HN) as (gy & Hy & _).
    destruct (wheel_graph_ok N HN) as (gw & Hw & _).
    destruct (eq_str ty "complete"); [by exists gc|].
    destruct (eq_str ty "cycle"); [by exists gy | by exists gw]. }
  destruct Hbuild as [g0 ->].
  rewrite (bool_decide_eq_true_2 _ Hf). simpl.
  by apply (populate_succeeds _ _ g0).
Qed.

End InitializeTotal.

(** * Concrete runs *)

(** An initializer that gives every node [id = 10]. *)
Definition ten_initializer : callable -> Callable (W:=unit) (gmap string value) :=
  fun _ ms => (Ok {["id" := VInt 10]}, ms).

(** A stepper that gives every node [id = 5]. *)
Definition levelling_stepper : callable -> Callable (W:=unit) unit :=
  fun _ ms =>
    match graph ms.1 with
    | PGraph g =>
        (Ok tt,
         (with_graph
            (PGraph {| nodes := map (fun nd => (nd.1, <["id" := VInt 5]> nd.2)) (nodes g);
                       edges := edges g |}) ms.1, ms.2))
    | PVal _ => (Raise AttributeError, ms)
    end.

(** A fresh model with two custom parameters. *)
Definition custom : St unit :=
  {| model := with_parameters (<["a" := VInt 1]> (<["b" := VInt 2]> default_parameters)) init;
     env := tt; out := [] |}.

(** A fresh model with an initializer. *)
Definition fresh_with_initializer : St unit :=
  {| model := with_initial_data_function (Some 0%nat) init; env := tt; out := [] |}.

(** A model whose convergence key is the empty string. *)
Definition keyless : St unit :=
  {| model := with_parameters
                (<["convergence_data_key" := VStr EmptyString]> default_parameters)
                (ready_model split_graph (VInt 10) 5);
     env := tt; out := [] |}.

Lemma delete_parameters_in_order_witness :
  let st := custom in
  let ks := ["a"; "num_nodes"; "b"] in
  let p := parameters (model st) in
  let r := delete_parameters (Some ks) st in
  (r.1 = Ok true <-> NoDup ks /\ Forall (deletable p) ks) /\
  (r.1 = Ok true -> r.2 = set_params (delete_keys ks p) st) /\
  (r.1 <> Ok true ->
     r.1 = Raise KeyError /\
     exists pre k post,
       ks = pre ++ k :: post /\
       NoDup pre /\ Forall (deletable p) pre /\
       (p !! k = None \/ k ∈ required_keys \/ k ∈ pre) /\
       r.2 = set_params (delete_keys pre p) st /\
       (forall x, x ∈ pre -> parameters (model r.2) !! x = None) /\
       (forall x, x ∉ pre -> parameters (model r.2) !! x = p !! x)).
Proof.
  apply (delete_parameters_in_order custom ["a"; "num_nodes"; "b"]).
  intros H. discriminate H.
Defined.

(** The same call, computed: [a] is gone, [num_nodes] and [b] are kept. *)
Lemma delete_parameters_partial_effect :
  let r := delete_parameters (Some ["a"; "num_nodes"; "b"]) custom in
  r.1 = Raise KeyError /\
  parameters (model r.2) !! "a" = None /\
  parameters (model r.2) !! "num_nodes" = Some (VInt 3) /\
  parameters (model r.2) !! "b" = Some (VInt 2).
Proof. repeat split; reflexivity. Qed.

Lemma run_to_convergence_without_key_witness :
  run_to_convergence idle_stepper 7 keyless =
    (Raise (PyException "No convergence data key specified"), keyless) /\
  truthy VNone = false /\ truthy (VStr EmptyString) = false /\
  truthy (VInt 0) = false.
Proof.
  apply (run_to_convergence_without_key idle_stepper 7 keyless (VStr EmptyString)).
  - unfold has_required_keys, required_keys.
    repeat (apply Forall_cons; split; [eexists; reflexivity|]). apply Forall_nil_2.
  - reflexivity.
  - reflexivity.
Defined.

Lemma idle_keeps_bound : keeps_bound (W:=unit) idle_stepper.
Proof. intros f ms. reflexivity. Defined.

Lemma idle_halts : halts (W:=unit) idle_stepper.
Proof. intros f ms H. discriminate H. Defined.

Lemma run_to_convergence_within_bound_witness :
  let st0 := (change_max_timesteps (-1) (ready split_graph (VInt 10) 5)).2 in
  let r := run_to_convergence idle_stepper 3 st0 in
  ((Z.to_nat (-1) < 3)%nat -> r.1 <> OutOfFuel) /\
  (forall t, r.1 = Ok t ->
     0 <= t <= Z.max 0 (-1) /\
     (-1 <= 0 -> t = 0 /\
        exists g, graph (model (ready split_graph (VInt 10) 5)) = PGraph g /\
                  r.2 = add_out [PrintBefore (nodes g)] st0)).
Proof.
  apply (run_to_convergence_within_bound idle_stepper (-1) 3
           (ready split_graph (VInt 10) 5) idle_keeps_bound idle_halts).
Defined.

(** C3, counterexample.  After [change_max_timesteps (-1)] a run on a
    graph that has not converged returns 0, which is more than the
    bound. *)
Lemma run_to_convergence_exceeds_negative_bound :
  let st := (change_max_timesteps (-1) (ready split_graph (VInt 10) 5)).2 in
  (run_to_convergence idle_stepper 3 st).1 = Ok 0 /\
  ~ (0 <= MAX_TIMESTEPS (model st)).
Proof. split; [reflexivity | intros H; vm_compute in H; by apply H]. Qed.

(** C2, counterexample.  With the bound [-1] and a first state that does
    not satisfy the predicate, the run returns 0: this is not the bound,
    and no state satisfied the predicate at time 0. *)
Lemma run_to_convergence_negative_bound_returns_zero :
  let st := ready split_graph (VInt 10) (-1) in
  (run_to_convergence idle_stepper 3 st).1 = Ok 0 /\
  0 <> MAX_TIMESTEPS (model st) /\
  converged (VStr "id") (VInt 10) (model st) = Ok false.
Proof. repeat split. intros H. discriminate H. Qed.

Lemma ten_keeps_model : keeps_model ten_initializer.
Proof. intros f ms. reflexivity. Defined.

(** A model with five nodes and the given graph type. *)
Definition five_nodes (ty : value) : St unit :=
  run_ops [OpSet "graph_type" ty; OpSet "num_nodes" (VInt 5)] fresh_with_initializer.

Lemma initialize_graph_topology_witness :
  let N := 5 in
  let made ty := graph (model (initialize_graph ten_initializer (five_nodes ty)).2) in
  (exists g, made (VStr "complete") = PGraph g /\
     Z.of_nat (length (nodes g)) = N /\
     Ok (topology g) = GraphProvider.complete_graph (VInt N) /\
     2 * Z.of_nat (length (edges g)) = N * (N - 1) /\
     forall i j, 0 <= i < N -> 0 <= j < N -> i <> j ->
       GraphProvider.has_edge (i, j) (edges g) = true) /\
  (exists g, made (VStr "cycle") = PGraph g /\
     Z.of_nat (length (nodes g)) = N /\
     Ok (topology g) = GraphProvider.cycle_graph (VInt N) /\
     Z.of_nat (length (edges g)) = N /\
     forall i, 0 <= i < N ->
       GraphProvider.has_edge (i, (i + 1) mod N) (edges g) = true) /\
  (exists g, made (VStr "star") = PGraph g /\
     Z.of_nat (length (nodes g)) = N /\
     Ok (topology g) = GraphProvider.wheel_graph (VInt N) /\
     (forall j, 1 <= j < N -> GraphProvider.has_edge (0, j) (edges g) = true) /\
     (forall j, 1 <= j < N ->
        GraphProvider.has_edge (j, if j =? N - 1 then 1 else j + 1) (edges g) = true) /\
     Z.of_nat (length (edges g)) = 2 * (N - 1)).
Proof.
  split; [|split].
  - destruct (initialize_graph_topology ten_initializer (five_nodes (VStr "complete")) 5
                (VStr "complete") ten_keeps_model)
      as (g & Hg & _ & _ & Hlen & Hcomplete & _ & _).
    + reflexivity.
    + reflexivity.
    + vm_compute. reflexivity.
    + destruct (Hcomplete eq_refl) as (Htop & Hcount & Hall).
      exists g. split; [exact Hg|]. split; [exact Hlen|]. split; [exact Htop|].
      split; [exact Hcount | exact Hall].
  - destruct (initialize_graph_topology ten_initializer (five_nodes (VStr "cycle")) 5
                (VStr "cycle") ten_keeps_model)
      as (g & Hg & _ & _ & Hlen & _ & Hcycle & _).
    + reflexivity.
    + reflexivity.
    + vm_compute. reflexivity.
    + destruct (Hcycle eq_refl) as (Htop & Hring).
      destruct Hring as (Hcount & Hnext); [lia|].
      exists g. split; [exact Hg|]. split; [exact Hlen|]. split; [exact Htop|].
      split; [exact Hcount | exact Hnext].
  - destruct (initialize_graph_topology ten_initializer (five_nodes (VStr "star")) 5
                (VStr "star") ten_keeps_model)
      as (g & Hg & _ & _ & Hlen & _ & _ & Hwheel).
    + reflexivity.
    + reflexivity.
    + vm_compute. reflexivity.
    + destruct Hwheel as (Htop & Hhub & Hrim & Hcount).
      * intros H. discriminate H.
      * intros H. discriminate H.
      * exists g. split; [exact Hg|]. split; [exact Hlen|]. split; [exact Htop|].
        split; [exact Hhub|]. split; [apply Hrim; lia | apply Hcount; lia].
Defined.

(** The graph that this call leaves: three nodes with [id = 10], every two
    of them connected. *)
Lemma initialize_graph_default :
  graph (model (initialize_graph ten_initializer fresh_with_initializer).2) =
    PGraph agreed_graph.
Proof. reflexivity. Qed.

(** The edges of the graph that a graph variable holds. *)
Definition edges_of (o : pyobj) : list (Z * Z) :=
  match o with
  | PGraph g => edges g
  | PVal _ => []
  end.

(** The cycle on four nodes and the fallback to the wheel for a graph type
    that is neither ["complete"] nor ["cycle"]. *)
Lemma initialize_graph_other_types :
  edges_of (graph (model (initialize_graph ten_initializer
      (run_ops [OpSet "graph_type" (VStr "cycle"); OpSet "num_nodes" (VInt 4)]
         fresh_with_initializer)).2)) = [(0, 1); (1, 2); (2, 3); (3, 0)] /\
  edges_of (graph (model (initialize_graph ten_initializer
      (run_ops [OpSet "graph_type" (VStr "star"); OpSet "num_nodes" (VInt 4)]
         fresh_with_initializer)).2)) = [(0, 1); (0, 2); (0, 3); (1, 2); (2, 3); (3, 1)].
Proof. split; reflexivity. Qed.

(** On five nodes the three graph types give three different graphs: ten
    edges for ["complete"], five for ["cycle"], and eight for any other
    value, here the string ["star"] and the integer 7. *)
Lemma initialize_graph_five_nodes :
  let edges_for ty :=
    edges_of (graph (model (initialize_graph ten_initializer (five_nodes ty)).2)) in
  edges_for (VStr "complete") =
    [(0, 1); (0, 2); (0, 3); (0, 4); (1, 2); (1, 3); (1, 4); (2, 3); (2, 4); (3, 4)] /\
  edges_for (VStr "cycle") = [(0, 1); (1, 2); (2, 3); (3, 4); (4, 0)] /\
  edges_for (VStr "star") =
    [(0, 1); (0, 2); (0, 3); (0, 4); (1, 2); (2, 3); (3, 4); (4, 1)] /\
  edges_for (VInt 7) = edges_for (VStr "star").
Proof. vm_compute. repeat split. Qed.

Lemma run_to_convergence_first_time_witness :
  let st := ready split_graph (VInt 10) 5 in
  let r := run_to_convergence levelling_stepper 4 st in
  r.1 = Ok (Z.of_nat 1) /\
  state_of r.2 = state_at levelling_stepper 1 (state_of st).
Proof.
  apply (run_to_convergence_first_time levelling_stepper 1 4
           (ready split_graph (VInt 10) 5) (VStr "id") (VInt 10)).
  - reflexivity.
  - reflexivity.
  - reflexivity.
  - intros i Hi. destruct i as [|[|i]]; [| |lia].
    + split; [reflexivity | eexists; reflexivity].
    + split; [reflexivity | eexists; reflexivity].
  - intros i Hi. destruct i as [|i]; [|lia].
    split; [reflexivity | exists 0%nat; split; reflexivity].
  - simpl. lia.
  - right. reflexivity.
  - lia.
Defined.

(** The end-to-end example of the specification: three nodes of a complete
    graph that all hold [id = 10], a stepper that changes nothing and the
    threshold 0.  The run returns 0 at once, and the model is unchanged. *)
Lemma run_to_convergence_already_converged :
  let st := ready agreed_graph (VInt 0) 100000 in
  (run_to_convergence idle_stepper 1 st).1 = Ok 0 /\
  model (run_to_convergence idle_stepper 1 st).2 = model st /\
  out (run_to_convergence idle_stepper 1 st).2 =
    [PrintBefore (nodes agreed_graph); PrintStd [inject_Z 10; inject_Z 10; inject_Z 10]].
Proof. repeat split; reflexivity. Qed.

(** A run that never converges stops at the bound. *)
Lemma run_to_convergence_exhausted :
  (run_to_convergence idle_stepper 6 (ready split_graph (VInt 10) 5)).1 = Ok 5.
Proof. reflexivity. Qed.

(** * Further properties of the accessors *)

Section AccessorFacts.

Context {W : Type}.
Implicit Types (st : St W) (p : gmap string value) (k : string).

(** [update_parameters]: after the call every key of the patch holds the
    value of the patch and every other key holds what it held; nothing
    else of the state changes, and the call cannot fail. *)
Theorem update_parameters_lookup (patch : gmap string value) st k :
  let r := update_parameters patch st in
  r.1 = Ok tt /\
  parameters (model r.2) !! k =
    match patch !! k with
    | Some v => Some v
    | None => parameters (model st) !! k
    end /\
  r.2 = set_params (parameters (model r.2)) st.
Proof.
  simpl. split; [done|]. split; [|done].
  rewrite lookup_union. destruct (patch !! k) as [v|] eqn:Hp.
  - by destruct (parameters (model st) !! k).
  - by destruct (parameters (model st) !! k).
Qed.

(** Indexed set followed by indexed get: the key that was set reads back
    the new value, every other key reads as before (a lookup error when it
    is absent), and a get never changes the state. *)
Theorem setitem_then_getitem st k v k' :
  let st1 := (setitem k v st).2 in
  (setitem k v st).1 = Ok tt /\
  getitem k st1 = (Ok v, st1) /\
  (getitem k' st).2 = st /\
  (k' <> k ->
     (getitem k' st1).1 = (getitem k' st).1 /\
     (parameters (model st) !! k' = None ->
        getitem k' st1 = (Raise KeyError, st1))).
Proof.
  intros st1. split; [done|]. split; [|split].
  - apply getitem_some. simpl. apply lookup_insert_eq.
  - unfold getitem. munfold. by destruct (parameters (model st) !! k').
  - intros Hne.
    assert (Hl : parameters (model st1) !! k' = parameters (model st) !! k').
    { simpl. by rewrite lookup_insert_ne. }
    unfold getitem. munfold. rewrite lookup_insert_ne by done.
    destruct (parameters (model st) !! k') as [v'|]; [done|]. by split.
Qed.

(** A custom key that is set and then deleted leaves the state exactly as
    it was before the two calls. *)
Theorem setitem_then_delete st k v :
  parameters (model st) !! k = None ->
  k ∉ required_keys ->
  delete_parameters (Some [k]) (setitem k v st).2 = (Ok true, st).
Proof.
  intros Hnone Hreq. rewrite delete_parameters_some.
  rewrite delete_each_ok.
  - simpl. f_equal. unfold set_params. simpl.
    rewrite delete_insert_eq, delete_id by done.
    destruct st as [[p g fi ft mx] w o]. reflexivity.
  - apply NoDup_singleton.
  - apply Forall_singleton. split; [|done]. simpl. rewrite lookup_insert_eq. by eexists.
Qed.

(** [set_graph] followed by [get_graph]: every graph, the graph without
    nodes included, and [None] are stored and read back; an argument that
    is refused leaves the state, and so the graph read back, as it was. *)
Theorem set_graph_then_get_graph st (g : Graph) :
  (set_graph (PGraph g) st).1 = Ok tt /\
  (get_graph (set_graph (PGraph g) st).2).1 = Ok (PGraph g) /\
  (set_graph (PVal VNone) st).1 = Ok tt /\
  (get_graph (set_graph (PVal VNone) st).2).1 = Ok (PVal VNone) /\
  (forall a e, (set_graph a st).1 = Raise e ->
     (set_graph a st).2 = st /\ (get_graph (set_graph a st).2).1 = Ok (graph (model st))).
Proof.
  rewrite !set_graph_cases. simpl. rewrite andb_false_r.
  repeat split; try done.
  - rewrite set_graph_cases in *. by destruct (truthy_obj a && negb (isinstance_Graph a)).
  - rewrite set_graph_cases in *. by destruct (truthy_obj a && negb (isinstance_Graph a)).
Qed.

End AccessorFacts.

Lemma setitem_then_delete_witness :
  delete_parameters (Some ["colour"]) (setitem "colour" (VStr "red") custom).2
    = (Ok true, custom).
Proof.
  apply (setitem_then_delete custom "colour" (VStr "red")).
  - reflexivity.
  - unfold required_keys. intros H.
    repeat (apply elem_of_cons in H as [H|H]; [discriminate H|]).
    by apply elem_of_nil in H.
Defined.

(** * Further properties of the convergence check *)

Section SpreadFacts.

Local Open Scope R_scope.

Lemma Rsum_bounds (a b : R) xs :
  Forall (fun x => a <= x <= b) xs ->
  INR (length xs) * a <= Rsum xs <= INR (length xs) * b.
Proof.
  induction 1 as [|x xs Hx Hall IH].
  - simpl. lra.
  - change (length (x :: xs)) with (S (length xs)). rewrite S_INR. simpl. lra.
Qed.

Lemma Rmean_bounds (a b : R) xs :
  xs <> [] -> Forall (fun x => a <= x <= b) xs -> a <= Rmean xs <= b.
Proof.
  intros Hne Hall. pose proof (Rsum_bounds a b xs Hall) as Hsum.
  assert (Hn : 0 < INR (length xs)).
  { apply lt_0_INR. destruct xs; [done | simpl; lia]. }
  unfold Rmean. split.
  - apply Rmult_le_reg_r with (INR (length xs)); [done|].
    unfold Rdiv. rewrite Rmult_assoc, Rinv_l by lra. lra.
  - apply Rmult_le_reg_r with (INR (length xs)); [done|].
    unfold Rdiv. rewrite Rmult_assoc, Rinv_l by lra. lra.
Qed.

(** Values inside an interval are spread by no more than its width. *)
Lemma population_std_range (a b : R) xs :
  xs <> [] -> Forall (fun x => a <= x <= b) xs -> population_std xs <= b - a.
Proof.
  intros Hne Hall. pose proof (Rmean_bounds a b xs Hne Hall) as Hmean.
  assert (Hn : 0 < INR (length xs)).
  { apply lt_0_INR. destruct xs; [done | simpl; lia]. }
  set (sq := map (fun x => (x - Rmean xs) * (x - Rmean xs)) xs).
  assert (Hsq : Forall (fun y => 0 <= y <= (b - a) * (b - a)) sq).
  { unfold sq. apply Forall_forall. intros y Hy. apply list_elem_of_In in Hy.
    apply in_map_iff in Hy as (x & <- & Hx). apply list_elem_of_In in Hx.
    rewrite Forall_forall in Hall. specialize (Hall x Hx).
    assert (0 <= (b - a - (x - Rmean xs)) * (b - a + (x - Rmean xs)))
      by (apply Rmult_le_pos; lra).
    pose proof (Rle_0_sqr (x - Rmean xs)) as Hsq. unfold Rsqr in Hsq. lra. }
  pose proof (Rsum_bounds _ _ _ Hsq) as Hsum.
  assert (Hlen : length sq = length xs) by (unfold sq; apply length_map).
  rewrite Hlen in Hsum.
  unfold population_std. fold sq.
  apply sqrt_le_iff.
  - apply Rmult_le_pos; [lra | left; by apply Rinv_0_lt_compat].
  - split; [lra|].
    apply Rmult_le_reg_r with (INR (length xs)); [done|].
    unfold Rdiv. rewrite Rmult_assoc, Rinv_l by lra. lra.
Qed.

Lemma std_le_range (a b s : Q) (xs : list Q) :
  xs <> [] -> Forall (fun x => (a <= x <= b)%Q) xs -> (b - a <= s)%Q ->
  Stats.std_le xs s = true.
Proof.
  intros Hne Hall Hs. apply std_le_correct; [done|].
  apply Rle_trans with (Q2R b - Q2R a).
  - apply population_std_range; [by destruct xs|].
    apply Forall_forall. intros y Hy. apply list_elem_of_In in Hy.
    apply in_map_iff in Hy as (x & <- & Hx). apply list_elem_of_In in Hx.
    rewrite Forall_forall in Hall. destruct (Hall x Hx) as [H1 H2].
    split; by apply Qle_Rle.
  - rewrite <- Q2R_minus. by apply Qle_Rle.
Qed.

Lemma std_le_monotone (xs : list Q) (s1 s2 : Q) :
  (s1 <= s2)%Q -> Stats.std_le xs s1 = true -> Stats.std_le xs s2 = true.
Proof.
  intros Hle. destruct xs as [|x xs]; [done|].
  rewrite !std_le_correct by done. intros H. apply Qle_Rle in Hle. lra.
Qed.

Lemma std_le_negative (xs : list Q) (s : Q) :
  (s < 0)%Q -> Stats.std_le xs s = false.
Proof.
  intros Hneg. destruct xs as [|x xs]; [done|]. unfold Stats.std_le.
  destruct (Qle_bool 0 s) eqn:H0; [|done].
  apply Qle_bool_iff in H0. exfalso. by apply (Qlt_not_le s 0).
Qed.

End SpreadFacts.

Section ConvergedFacts.

Context {W : Type}.
Implicit Types (st : St W).

Lemma collect_missing k (ns : list (Z * gmap string value)) :
  Exists (fun nd => nd.2 !! k = None) ns -> collect (VStr k) ns = Raise KeyError.
Proof.
  induction 1 as [[i r] ns Hr|[i r] ns Hex IH]; simpl in *.
  - by rewrite Hr.
  - destruct (r !! k); [|done]. by rewrite IH.
Qed.

Lemma collect_present k (ns : list (Z * gmap string value)) :
  Forall (fun nd => is_Some (nd.2 !! k)) ns ->
  collect (VStr k) ns = Ok (omap (fun nd => nd.2 !! k) ns).
Proof.
  induction 1 as [|[i r] ns [v Hv] Hall IH]; [done|].
  unfold omap in *. simpl in *. by rewrite Hv, IH.
Qed.

Lemma as_numbers_not_a_number k (ns : list (Z * gmap string value)) :
  Exists (fun nd => exists v, nd.2 !! k = Some v /\ numeric v = None) ns ->
  as_numbers (omap (fun nd => nd.2 !! k) ns) = None.
Proof.
  induction 1 as [[i r] ns (v & Hv & Hnum)|[i r] ns Hex IH];
    unfold omap in *; simpl in *.
  - rewrite Hv. simpl. by rewrite Hnum.
  - destruct (r !! k) as [v|]; [|done]. simpl. rewrite IH. by destruct (numeric v).
Qed.

(** [is_converged] on a graph: a node without the field is a lookup
    error, whatever the other nodes hold; when every node has the field
    and one of the values is not a number it is a type error.  In both
    cases the state is as before and nothing was printed. *)
Theorem is_converged_raises st g k std_dev :
  graph (model st) = PGraph g ->
  (Exists (fun nd => nd.2 !! k = None) (nodes g) ->
     is_converged (VStr k) std_dev st = (Raise KeyError, st)) /\
  (Forall (fun nd => is_Some (nd.2 !! k)) (nodes g) ->
   Exists (fun nd => exists v, nd.2 !! k = Some v /\ numeric v = None) (nodes g) ->
     is_converged (VStr k) std_dev st = (Raise TypeError, st)).
Proof.
  intros Hg. split.
  - intros Hex. unfold is_converged, graph_nodes. munfold. rewrite Hg. simpl.
    by rewrite (collect_missing _ _ Hex).
  - intros Hall Hex. unfold is_converged, graph_nodes. munfold. rewrite Hg. simpl.
    rewrite (collect_present _ _ Hall). by rewrite (as_numbers_not_a_number _ _ Hex).
Qed.

(** [is_converged] is monotone in the threshold: a model that has
    converged within a threshold has converged within every larger one,
    and no model has converged within a negative threshold. *)
Theorem is_converged_monotone st data_key sd1 sd2 (q1 q2 : Q) :
  numeric sd1 = Some q1 -> numeric sd2 = Some q2 -> (q1 <= q2)%Q ->
  ((is_converged data_key sd1 st).1 = Ok true ->
   (is_converged data_key sd2 st).1 = Ok true) /\
  ((q2 < 0)%Q -> (is_converged data_key sd2 st).1 <> Ok true).
Proof.
  intros H1 H2 Hle.
  rewrite !(proj1 (is_converged_result _ _ _)). unfold converged.
  destruct (graph (model st)) as [v|g]; [done|].
  destruct (collect data_key (nodes g)) as [vs|e|]; [|done..].
  destruct (as_numbers vs) as [xs|]; [|done].
  rewrite H1, H2. split.
  - intros [= Hs]. f_equal. by apply (std_le_monotone xs q1 q2).
  - intros Hneg. by rewrite (std_le_negative xs q2 Hneg).
Qed.

(** In exact arithmetic, values that all lie in an interval no wider than
    the threshold are within it. *)
Lemma converged_within_range (m : AgentModel) g k std_dev (s a b : Q) :
  graph m = PGraph g ->
  nodes g <> [] ->
  Forall (fun nd => exists v q, nd.2 !! k = Some v /\ numeric v = Some q /\
                                (a <= q <= b)%Q) (nodes g) ->
  numeric std_dev = Some s ->
  (b - a <= s)%Q ->
  converged (VStr k) std_dev m = Ok true.
Proof.
  intros Hg Hne Hall Hs Hwidth.
  assert (Hnum : all_numeric_at k (nodes g)).
  { eapply Forall_impl; [exact Hall|]. intros nd (v & q & Hv & Hq & _). eauto. }
  destruct (collect_sample k (nodes g) Hnum) as (vs & Hvs & Hxs).
  unfold converged. rewrite Hg, Hvs, Hxs, Hs. f_equal.
  apply (std_le_range a b); [by apply sample_at_nonempty | | done].
  clear Hvs Hxs Hnum Hne Hg. induction Hall as [|[i r] ns (v & q & Hv & Hq & Hr) Hall IH].
  - constructor.
  - unfold sample_at in *. simpl in *. rewrite Hv. simpl. rewrite Hq.
    by constructor.
Qed.

End ConvergedFacts.

(** * Further properties of the convergence run *)

(** What [self.__graph.nodes(data=True)] shows of a model. *)
Definition nodes_of (m : AgentModel) : list (Z * gmap string value) :=
  match graph m with
  | PGraph g => nodes g
  | PVal _ => []
  end.

(** The array that a convergence check on a model builds from the field
    [data_key] of the nodes, and whose spread it prints (empty where the
    check fails before it prints). *)
Definition sample_of (data_key : value) (m : AgentModel) : list Q :=
  match collect data_key (nodes_of m) with
  | Ok vs => default [] (as_numbers vs)
  | _ => []
  end.

Section RunFacts.

Context {W : Type}.
Variable stepper : callable -> Callable (W:=W) unit.
Implicit Types (st : St W) (ms : AgentModel * W).

(** The lines of [n] rounds of the loop that start at time [t0] in the
    state [ms]: each round prints the line of its convergence check and,
    after the step, the new time with the nodes as the step left them. *)
Fixpoint loop_lines (data_key : value) (n : nat) (t0 : Z) ms : list event :=
  match n with
  | O => []
  | S n' =>
      PrintStd (sample_of data_key ms.1) ::
      PrintAfter (t0 + 1) (nodes_of (step_state stepper ms).1) ::
      loop_lines data_key n' (t0 + 1) (step_state stepper ms)
  end.

(** A convergence check that answers prints one line, for the sample of
    the model, and changes nothing else. *)
Lemma is_converged_line data_key std_dev st b st1 :
  is_converged data_key std_dev st = (Ok b, st1) ->
  st1 = add_out [PrintStd (sample_of data_key (model st))] st.
Proof.
  unfold is_converged, sample_of, nodes_of, graph_nodes. munfold.
  destruct (graph (model st)) as [v|g]; [done|]. simpl.
  destruct (collect data_key (nodes g)) as [vs|e|]; [|done..].
  destruct (as_numbers vs) as [xs|]; [|done]. simpl.
  destruct (numeric std_dev); [|done]. by intros [= _ <-].
Qed.

Lemma converge_stops_converged fuel data_key std_dev :
  forall t0 st t st',
    converge stepper fuel data_key std_dev t0 st = (Ok t, st') ->
    t < MAX_TIMESTEPS (model st') ->
    converged data_key std_dev (model st') = Ok true.
Proof.
  induction fuel as [|fuel IH]; intros t0 st t st' Hrun Hlt; [done|].
  rewrite converge_step in Hrun.
  destruct (Z.ltb_spec t0 (MAX_TIMESTEPS (model st))) as [_|Hge];
    [|injection Hrun as <- <-; lia].
  destruct (is_converged_result data_key std_dev st) as [Hr Hst1].
  destruct (is_converged data_key std_dev st) as [[[|]|e|] st1]; [| |done..].
  - injection Hrun as <- <-. injection Hst1 as -> _. done.
  - destruct (timestep stepper st1) as [[[]|e|] st2]; [|done..].
    destruct (graph (model st2)) as [v|g]; [done|].
    by apply IH in Hrun.
Qed.

(** A run that returns a time below the bound of the model it leaves has
    stopped because the convergence predicate held: that model satisfies
    the predicate for the key and the threshold the run started with.
    This holds for every stepper. *)
Theorem run_to_convergence_stops_converged fuel st k s t st' :
  parameters (model st) !! "convergence_data_key" = Some k ->
  parameters (model st) !! "convergence_std_dev" = Some s ->
  run_to_convergence stepper fuel st = (Ok t, st') ->
  t < MAX_TIMESTEPS (model st') ->
  converged k s (model st') = Ok true.
Proof.
  intros Hk Hs Hrun Hlt.
  rewrite (run_to_convergence_unfold stepper fuel st k s Hk Hs) in Hrun.
  destruct (negb (truthy k)); [done|].
  destruct (graph (model st)) as [v|g]; [done|].
  by apply (converge_stops_converged _ _ _ _ _ _ _ Hrun).
Qed.

Lemma converge_lines fuel data_key std_dev :
  forall t0 st t st',
    converge stepper fuel data_key std_dev t0 st = (Ok t, st') ->
    (exists g, graph (model st) = PGraph g) ->
    t0 <= t /\
    state_of st' = state_at stepper (Z.to_nat (t - t0)) (state_of st) /\
    (forall i, (i <= Z.to_nat (t - t0))%nat ->
       exists g, graph (state_at stepper i (state_of st)).1 = PGraph g) /\
    out st' = out st ++ loop_lines data_key (Z.to_nat (t - t0)) t0 (state_of st) ++
                (if t <? MAX_TIMESTEPS (model st')
                 then [PrintStd (sample_of data_key (model st'))] else []).
Proof.
  induction fuel as [|fuel IH]; intros t0 st t st' Hrun Hgraph; [done|].
  rewrite converge_step in Hrun.
  destruct (Z.ltb_spec t0 (MAX_TIMESTEPS (model st))) as [Hlt|Hge].
  - destruct (is_converged data_key std_dev st) as [[[|]|e|] st1] eqn:Hc; [| |done..].
    + injection Hrun as <- <-. apply is_converged_line in Hc as ->.
      rewrite Z.sub_diag. simpl. split; [lia|]. split; [done|]. split.
      * intros i Hi. by replace i with 0%nat by lia.
      * by destruct (Z.ltb_spec t0 (MAX_TIMESTEPS (model st))); [|lia].
    + apply is_converged_line in Hc as ->.
      set (st1 := add_out [PrintStd (sample_of data_key (model st))] st) in *.
      destruct (timestep_state stepper st1) as [Hstate Hout2].
      destruct (timestep stepper st1) as [[[]|e|] st2]; [|done..].
      simpl in Hstate, Hout2.
      assert (Hstep : state_of st2 = step_state stepper (state_of st)).
      { rewrite Hstate. unfold step_state. simpl. reflexivity. }
      destruct (graph (model st2)) as [v|g] eqn:Hg; [done|].
      apply IH in Hrun as (Hle & Hst' & Hgraphs & Hout); [|by exists g].
      change (state_of (add_out [PrintAfter (t0 + 1) (nodes g)] st2))
        with (state_of st2) in Hst', Hgraphs, Hout.
      rewrite Hstep in Hst', Hgraphs, Hout.
      replace (Z.to_nat (t - t0)) with (S (Z.to_nat (t - (t0 + 1)))) by lia.
      split; [lia|]. split; [by rewrite state_at_succ|]. split.
      * intros [|i] Hi; [done|]. rewrite state_at_succ. apply Hgraphs. lia.
      * rewrite Hout. simpl. rewrite Hout2. simpl.
        assert (Hnodes : nodes_of (step_state stepper (state_of st)).1 = nodes g).
        { rewrite <- Hstep. unfold nodes_of, state_of. simpl. by rewrite Hg. }
        rewrite Hnodes. by rewrite <- !app_assoc.
  - injection Hrun as <- <-. rewrite Z.sub_diag. simpl.
    split; [lia|]. split; [done|]. split.
    + intros i Hi. by replace i with 0%nat by lia.
    + destruct (Z.ltb_spec t0 (MAX_TIMESTEPS (model st))); [lia|].
      by rewrite app_nil_r.
Qed.

(** The whole output of a successful run.  A run that returns [t] has
    taken [t] steps, every model on the way held a graph, and it has
    printed, after what was there before: the nodes once before the loop;
    then for every step, in order, the line of the convergence check on
    the model before the step and the line with the new time (from 1 to
    [t]) and the nodes after the step; and last, when [t] is below the
    bound of the final model, the line of the check that ended the loop.
    Nothing else is printed. *)
Theorem run_to_convergence_trace fuel st k t st' :
  parameters (model st) !! "convergence_data_key" = Some k ->
  run_to_convergence stepper fuel st = (Ok t, st') ->
  0 <= t /\
  state_of st' = state_at stepper (Z.to_nat t) (state_of st) /\
  (forall i, (i <= Z.to_nat t)%nat ->
     exists g, graph (state_at stepper i (state_of st)).1 = PGraph g) /\
  out st' = out st ++
    PrintBefore (nodes_of (model st)) ::
    loop_lines k (Z.to_nat t) 0 (state_of st) ++
    (if t <? MAX_TIMESTEPS (model st')
     then [PrintStd (sample_of k (model st'))] else []).
Proof.
  intros Hk Hrun. rewrite run_to_convergence_cases, Hk in Hrun.
  destruct (parameters (model st) !! "convergence_std_dev") as [s|]; [|done].
  destruct (negb (truthy k)); [done|].
  destruct (graph (model st)) as [v|g] eqn:Hg; [done|].
  apply converge_lines in Hrun as (Hle & Hst' & Hgraphs & Hout); [|by exists g].
  change (state_of (add_out [PrintBefore (nodes g)] st)) with (state_of st)
    in Hst', Hgraphs, Hout.
  rewrite Z.sub_0_r in Hst', Hgraphs, Hout.
  split; [done|]. split; [done|]. split; [done|].
  rewrite Hout. simpl. unfold nodes_of. rewrite Hg. by rewrite <- app_assoc.
Qed.

(** A run on a model whose graph variable holds no graph raises an
    attribute error before the loop, whatever the bound is (a bound of
    zero included), and leaves the state as it was. *)
Theorem run_to_convergence_needs_graph fuel st k s v :
  parameters (model st) !! "convergence_data_key" = Some k ->
  truthy k = true ->
  parameters (model st) !! "convergence_std_dev" = Some s ->
  graph (model st) = PVal v ->
  run_to_convergence stepper fuel st = (Raise AttributeError, st).
Proof.
  intros Hk Htrue Hs Hg.
  by rewrite (run_to_convergence_unfold stepper fuel st k s Hk Hs), Htrue, Hg.
Qed.

(** A run on a model without a stepper: the missing stepper is noticed
    only when a step is needed.  The run returns 0 when the bound is not
    positive or the model has converged already, and raises the
    precondition error of [timestep] otherwise; the model is unchanged. *)
Theorem run_to_convergence_without_stepper fuel st k s g b :
  parameters (model st) !! "convergence_data_key" = Some k ->
  truthy k = true ->
  parameters (model st) !! "convergence_std_dev" = Some s ->
  graph (model st) = PGraph g ->
  timestep_function (model st) = None ->
  converged k s (model st) = Ok b ->
  let r := run_to_convergence stepper (S fuel) st in
  r.1 = (if (0 <? MAX_TIMESTEPS (model st)) && negb b
         then Raise (PyException "Timestep function is not set.")
         else Ok 0) /\
  model r.2 = model st.
Proof.
  intros Hk Htrue Hs Hg Hf Hc r. subst r.
  rewrite (run_to_convergence_unfold stepper _ st k s Hk Hs), Htrue, Hg. simpl negb.
  cbv iota. rewrite converge_step.
  change (MAX_TIMESTEPS (model (add_out [PrintBefore (nodes g)] st)))
    with (MAX_TIMESTEPS (model st)).
  destruct (0 <? MAX_TIMESTEPS (model st)); [|done].
  destruct (is_converged_out k s (add_out [PrintBefore (nodes g)] st) b Hc)
    as [xs ->].
  destruct b; [done|]. simpl.
  unfold timestep. munfold. by rewrite Hf.
Qed.

End RunFacts.

Section RunFailure.

Context {W : Type}.
Variable stepper : callable -> Callable (W:=W) unit.
Implicit Types (st : St W) (ms : AgentModel * W).

(** [n] rounds of the loop that each find the model not converged and
    step without an exception. *)
Lemma converge_advance data_key std_dev (n : nat) :
  forall fuel t0 st,
    let B := MAX_TIMESTEPS (model st) in
    (forall i, (i <= n)%nat ->
       MAX_TIMESTEPS (state_at stepper i (state_of st)).1 = B /\
       exists g, graph (state_at stepper i (state_of st)).1 = PGraph g) ->
    (forall i, (i < n)%nat ->
       converged data_key std_dev (state_at stepper i (state_of st)).1 = Ok false /\
       exists f, timestep_function (state_at stepper i (state_of st)).1 = Some f /\
                 (stepper f (state_at stepper i (state_of st))).1 = Ok tt) ->
    t0 + Z.of_nat n <= B ->
    exists st',
      converge stepper (n + fuel) data_key std_dev t0 st =
        converge stepper fuel data_key std_dev (t0 + Z.of_nat n) st' /\
      state_of st' = state_at stepper n (state_of st).
Proof.
  induction n as [|n IH]; intros fuel t0 st B Hall Hbefore Hle.
  - exists st. split; [|done]. by rewrite Z.add_0_r.
  - change (S n + fuel)%nat with (S (n + fuel)). rewrite converge_step. fold B.
    destruct (Z.ltb_spec t0 B) as [Hlt|Hge]; [|lia].
    destruct (Hbefore 0%nat ltac:(lia)) as [Hc (f & Hf & Hok)]. simpl in Hc, Hf, Hok.
    destruct (is_converged_out _ _ _ _ Hc) as [xs ->].
    set (st1 := add_out [PrintStd xs] st).
    destruct (timestep_ok stepper st1 f Hf Hok) as (st2 & -> & Hst2).
    change (state_of st1) with (state_of st) in Hst2.
    destruct (Hall 1%nat ltac:(lia)) as [HB1 [g Hg]].
    change (state_at stepper 1 (state_of st)) with
      (step_state stepper (state_of st)) in HB1, Hg.
    rewrite <- Hst2 in HB1, Hg. simpl in HB1, Hg. rewrite Hg.
    set (st3 := add_out [PrintAfter (t0 + 1) (nodes g)] st2).
    assert (Hst3 : state_of st3 = step_state stepper (state_of st)) by done.
    destruct (IH fuel (t0 + 1) st3) as (st' & Hrun & Hst').
    + intros i Hi. rewrite Hst3, <- state_at_succ.
      change (MAX_TIMESTEPS (model st3)) with (MAX_TIMESTEPS (model st2)).
      rewrite HB1. apply Hall. lia.
    + intros i Hi. rewrite Hst3, <- state_at_succ. apply Hbefore. lia.
    + change (MAX_TIMESTEPS (model st3)) with (MAX_TIMESTEPS (model st2)).
      rewrite HB1. fold B. lia.
    + exists st'. split.
      * rewrite Hrun. f_equal. lia.
      * by rewrite Hst', Hst3, <- state_at_succ.
Qed.

(** An exception of the stepper ends the run: when the first [n] steps
    succeed on models that have not converged and the next call of the
    stepper raises, the run raises the same exception, and the model and
    the environment are the ones the failed call left behind; nothing is
    rolled back. *)
Theorem run_to_convergence_stepper_raises (n : nat) fuel st k s f e :
  parameters (model st) !! "convergence_data_key" = Some k ->
  truthy k = true ->
  parameters (model st) !! "convergence_std_dev" = Some s ->
  let B := MAX_TIMESTEPS (model st) in
  (forall i, (i <= n)%nat ->
     MAX_TIMESTEPS (state_at stepper i (state_of st)).1 = B /\
     exists g, graph (state_at stepper i (state_of st)).1 = PGraph g) ->
  (forall i, (i < n)%nat ->
     converged k s (state_at stepper i (state_of st)).1 = Ok false /\
     exists f', timestep_function (state_at stepper i (state_of st)).1 = Some f' /\
                (stepper f' (state_at stepper i (state_of st))).1 = Ok tt) ->
  Z.of_nat n < B ->
  converged k s (state_at stepper n (state_of st)).1 = Ok false ->
  timestep_function (state_at stepper n (state_of st)).1 = Some f ->
  (stepper f (state_at stepper n (state_of st))).1 = Raise e ->
  (n < fuel)%nat ->
  let r := run_to_convergence stepper fuel st in
  r.1 = Raise e /\
  state_of r.2 = (stepper f (state_at stepper n (state_of st))).2.
Proof.
  intros Hk Htrue Hs B Hall Hbefore Hlt Hc Hf He Hfuel r. subst r.
  rewrite (run_to_convergence_unfold stepper fuel st k s Hk Hs), Htrue. simpl.
  destruct (Hall 0%nat ltac:(lia)) as [_ [g Hg]]. simpl in Hg. rewrite Hg.
  set (st1 := add_out [PrintBefore (nodes g)] st).
  replace fuel with (n + S (fuel - S n))%nat by lia.
  destruct (converge_advance k s n (S (fuel - S n)) 0 st1) as (st' & -> & Hst');
    [done | done | change (MAX_TIMESTEPS (model st1)) with B; lia |].
  change (state_of st1) with (state_of st) in Hst'.
  rewrite converge_step.
  assert (Hm : model st' = (state_at stepper n (state_of st)).1) by (by rewrite <- Hst').
  destruct (Hall n ltac:(lia)) as [HB _]. rewrite <- Hm in HB, Hc, Hf.
  rewrite HB. destruct (Z.ltb_spec (0 + Z.of_nat n) B) as [_|?]; [|lia].
  destruct (is_converged_out _ _ _ _ Hc) as [xs ->].
  set (st2 := add_out [PrintStd xs] st').
  pose proof (timestep_result stepper st2 f Hf) as Hres.
  destruct (timestep_state stepper st2) as [Hstate _].
  change (state_of st2) with (state_of st') in Hres, Hstate.
  change (model st2) with (model st') in Hstate.
  rewrite Hf, Hst' in Hstate. rewrite Hst', He in Hres.
  destruct (timestep stepper st2) as [res st3]. simpl in Hres, Hstate. by subst res.
Qed.

End RunFailure.

(** * Further properties of initialization *)

(** The records that the nodes [ids] get from an initializer that returns
    [rec w] in the environment [w] and leaves the environment [next w]. *)
Fixpoint filled {W : Type} (rec : W -> gmap string value) (next : W -> W)
    (w : W) (ids : list Z) : list (Z * gmap string value) :=
  match ids with
  | [] => []
  | i :: rest => (i, rec w) :: filled rec next (next w) rest
  end.

Section InitializeRecords.

Context {W : Type}.
Variable initializer : callable -> Callable (W:=W) (gmap string value).
Variable rec : W -> gmap string value.
Variable next : W -> W.
Implicit Types (st : St W).

(** The initializer reads and advances its environment only. *)
Definition reads_environment : Prop :=
  forall f m w, initializer f (m, w) = (Ok (rec w), (m, next w)).

Lemma update_node_app (done rest : list (Z * gmap string value)) node data r :
  node ∉ map fst done ->
  update_node node data (done ++ (node, r) :: rest) =
    Some (done ++ (node, data ∪ r) :: rest).
Proof.
  induction done as [|[i ri] done IH]; intros Hnot; simpl.
  - by rewrite Z.eqb_refl.
  - destruct (Z.eqb_spec i node) as [->|Hne].
    + exfalso. apply Hnot. simpl. by left.
    + rewrite IH; [done|]. intros Hin. apply Hnot. simpl. by right.
Qed.

Lemma populate_records (rest : list Z) : forall (done : list (Z * gmap string value)) es st,
  reads_environment ->
  is_Some (initial_data_function (model st)) ->
  graph (model st) = PGraph {| nodes := done ++ map (fun i => (i, ∅)) rest; edges := es |} ->
  (forall x, x ∈ rest -> x ∉ map fst done) ->
  NoDup rest ->
  populate initializer rest st =
    (Ok tt,
     {| model := with_graph
                   (PGraph {| nodes := done ++ filled rec next (env st) rest;
                              edges := es |}) (model st);
        env := Nat.iter (length rest) next (env st);
        out := out st |}).
Proof.
  induction rest as [|node rest IH]; intros done es st Hread [f Hf] Hg Hfresh Hnd.
  - simpl. f_equal. destruct st as [[p g fi ft mx] w o]. simpl in *. by subst g.
  - rewrite populate_step, Hf. unfold invoke. rewrite Hread. simpl.
    rewrite Hg. simpl.
    rewrite update_node_app by (apply Hfresh; by left).
    rewrite (right_id_L ∅ (∪)).
    apply NoDup_cons in Hnd as [Hnotin Hnd].
    rewrite (IH (done ++ [(node, rec (env st))]) es).
    + simpl. rewrite <- app_assoc. simpl. do 2 f_equal.
      apply Nat.iter_swap.
    + done.
    + simpl. by eexists.
    + simpl. by rewrite <- app_assoc.
    + intros x Hx. rewrite map_app. simpl. intros Hin.
      apply elem_of_app in Hin as [Hin|Hin].
      * apply (Hfresh x); [by right | done].
      * apply list_elem_of_singleton in Hin. by subst.
    + done.
Qed.

Lemma fst_filled (w : W) ids : map fst (filled rec next w ids) = ids.
Proof. revert w. induction ids as [|i ids IH]; intros w; simpl; [done|]. by rewrite IH. Qed.

Lemma lookup_filled (w : W) ids (j : nat) i :
  ids !! j = Some i ->
  filled rec next w ids !! j = Some (i, rec (Nat.iter j next w)).
Proof.
  revert w j. induction ids as [|x ids IH]; intros w j Hj; [done|].
  destruct j as [|j]; simpl in *.
  - by injection Hj as ->.
  - rewrite (IH (next w) j Hj). by rewrite Nat.iter_swap.
Qed.

(** The state that a successful [initialize_graph] leaves, for a graph
    [g0] that the provider built with fresh records. *)
Lemma initialize_graph_fills st n ty g0 ids :
  reads_environment ->
  parameters (model st) !! "num_nodes" = Some n ->
  parameters (model st) !! "graph_type" = Some ty ->
  is_Some (initial_data_function (model st)) ->
  build ty n = Ok g0 ->
  nodes g0 = map (fun i => (i, ∅)) ids ->
  NoDup ids ->
  initialize_graph initializer st =
    (Ok tt,
     {| model := with_graph
                   (PGraph {| nodes := filled rec next (env st) ids; edges := edges g0 |})
                   (model st);
        env := Nat.iter (length ids) next (env st);
        out := out st |}).
Proof.
  intros Hread Hn Hty Hf Hb Hnodes Hnd.
  rewrite (initialize_graph_unfold initializer st n ty Hn Hty), Hb.
  rewrite (bool_decide_eq_true_2 _ Hf). simpl.
  rewrite Hnodes, map_map. simpl. rewrite map_id.
  rewrite (populate_records ids [] (edges g0)); try done.
  - simpl. destruct g0 as [ns0 es0]. simpl in *. by subst ns0.
  - intros x _ Hin. by apply elem_of_nil in Hin.
Qed.

(** [initialize_graph] calls the initializer once for every node of the
    new graph, in the order of the nodes, and the record of a node is the
    record that its own call returned: the [j]-th node holds what the
    initializer returned in the environment that [j] earlier calls left,
    and the environment after the call is the one that [N] calls leave.
    The graph that was there before plays no part. *)
Theorem initialize_graph_records st n ty g0 ids :
  reads_environment ->
  parameters (model st) !! "num_nodes" = Some n ->
  parameters (model st) !! "graph_type" = Some ty ->
  is_Some (initial_data_function (model st)) ->
  build ty n = Ok g0 ->
  nodes g0 = map (fun i => (i, ∅)) ids ->
  NoDup ids ->
  let r := initialize_graph initializer st in
  r.1 = Ok tt /\
  env r.2 = Nat.iter (length ids) next (env st) /\
  out r.2 = out st /\
  exists g, graph (model r.2) = PGraph g /\
    edges g = edges g0 /\
    map fst (nodes g) = ids /\
    forall j i, ids !! j = Some i ->
      nodes g !! j = Some (i, rec (Nat.iter j next (env st))).
Proof.
  intros Hread Hn Hty Hf Hb Hnodes Hnd r. subst r.
  rewrite (initialize_graph_fills st n ty g0 ids) by done. simpl.
  repeat split; try done. eexists. split; [done|]. simpl.
  split; [done|]. split; [apply fst_filled|].
  intros j i Hj. by apply lookup_filled.
Qed.

End InitializeRecords.

(** * The example initializer *)

(** The raw draws of the random generator, one per call. *)
Definition Random : Type := nat -> Z.

(** [random.randint(lo, hi)] on a raw draw: an integer from [lo] to [hi]. *)
Definition randint (lo hi raw : Z) : Z := lo + raw mod (hi - lo + 1).

(** [genInitialData]: a record with a random [id] from 1 to 100. *)
Definition genInitialData : Callable (W:=Random) (gmap string value) :=
  fun ms => (Ok {["id" := VInt (randint 1 100 (ms.2 0%nat))]},
             (ms.1, fun i => ms.2 (S i))).

Section CallbackFacts.

Context {W : Type}.

Lemma randint_range (raw : Z) : 1 <= randint 1 100 raw <= 100.
Proof.
  unfold randint. pose proof (Z.mod_pos_bound raw (100 - 1 + 1) ltac:(lia)). lia.
Qed.

Lemma genInitialData_reads_environment :
  reads_environment (fun _ => genInitialData)
    (fun w : Random => {["id" := VInt (randint 1 100 (w 0%nat))]})
    (fun (w : Random) i => w (S i)).
Proof. intros f m w. reflexivity. Qed.

Lemma filled_ids_in_range (w : Random) ids :
  Forall (fun nd => exists v q, nd.2 !! "id" = Some v /\ numeric v = Some q /\
                                (1 <= q <= 100)%Q)
    (filled (fun w : Random => {["id" := VInt (randint 1 100 (w 0%nat))]})
            (fun (w : Random) i => w (S i)) w ids).
Proof.
  revert w. induction ids as [|i ids IH]; intros w; simpl; constructor; [|apply IH].
  exists (VInt (randint 1 100 (w 0%nat))), (inject_Z (randint 1 100 (w 0%nat))).
  split; [apply lookup_singleton_eq|]. split; [done|].
  pose proof (randint_range (w 0%nat)) as [H1 H2].
  split; unfold Qle; simpl; lia.
Qed.

End CallbackFacts.

Section CallbackClaims.

Variable stepper : callable -> Callable (W:=Random) unit.

(** A graph initialized with [genInitialData] has converged on [id] within
    every threshold from 99 on, the default 100 included: the values lie
    between 1 and 100.  A convergence run on it returns 0 at once, for
    every stepper, every bound and every outcome of the random draws, and
    leaves the model as initialization left it. *)
Theorem genInitialData_converges_at_once (st : St Random) n ty g0 ids sd (s : Q) fuel :
  parameters (model st) !! "num_nodes" = Some n ->
  parameters (model st) !! "graph_type" = Some ty ->
  is_Some (initial_data_function (model st)) ->
  build ty n = Ok g0 ->
  nodes g0 = map (fun i => (i, ∅)) ids ->
  NoDup ids ->
  ids <> [] ->
  parameters (model st) !! "convergence_data_key" = Some (VStr "id") ->
  parameters (model st) !! "convergence_std_dev" = Some sd ->
  numeric sd = Some s ->
  (99 <= s)%Q ->
  let st1 := (initialize_graph (fun _ => genInitialData) st).2 in
  let r := run_to_convergence stepper (S fuel) st1 in
  (initialize_graph (fun _ => genInitialData) st).1 = Ok tt /\
  r.1 = Ok 0 /\ model r.2 = model st1.
Proof.
  intros Hn Hty Hf Hb Hnodes Hnd Hne Hk Hsd Hs H99 st1 r. subst r st1.
  rewrite (initialize_graph_fills _ _ _ st n ty g0 ids genInitialData_reads_environment)
    by done.
  split; [done|]. cbn [snd].
  set (g1 := {| nodes := filled (fun w : Random => {["id" := VInt (randint 1 100 (w 0%nat))]})
                           (fun (w : Random) i => w (S i)) (env st) ids;
                edges := edges g0 |}).
  set (st1 := {| model := with_graph (PGraph g1) (model st);
                 env := Nat.iter (length ids) (fun (w : Random) i => w (S i)) (env st);
                 out := out st |}).
  rewrite (run_to_convergence_unfold stepper _ st1 (VStr "id") sd Hk Hsd).
  change (graph (model st1)) with (PGraph g1). cbn [truthy negb String.eqb].
  set (st2 := add_out [PrintBefore (nodes g1)] st1).
  assert (Hc : converged (VStr "id") sd (model st2) = Ok true).
  { apply (converged_within_range _ g1 "id" sd s 1 100).
    - reflexivity.
    - simpl. by destruct ids.
    - apply filled_ids_in_range.
    - exact Hs.
    - apply Qle_trans with 99%Q; [|exact H99]. unfold Qle. simpl. lia. }
  rewrite converge_step.
  destruct (0 <? MAX_TIMESTEPS (model st2)); [|done].
  by destruct (is_converged_out _ _ _ _ Hc) as [xs ->].
Qed.

End CallbackClaims.

(** * Concrete runs of the further properties *)

(** A node without the field [id] after one that has it. *)
Definition ragged_graph : Graph :=
  {| nodes := [(0, {["id" := VInt 1]}); (1, {["age" := VInt 4]})]; edges := [(0, 1)] |}.

(** A stepper that drops the graph and then raises. *)
Definition breaking_stepper : callable -> Callable (W:=unit) unit :=
  fun _ ms => (Raise TypeError, (with_graph (PVal VNone) ms.1, ms.2)).

(** Raw draws 0, 37, 74, ... *)
Definition draws : Random := fun i => Z.of_nat i * 37.

(** A fresh model with an initializer and the convergence key [id]. *)
Definition fresh_random : St Random :=
  {| model := with_parameters (<["convergence_data_key" := VStr "id"]> default_parameters)
                (with_initial_data_function (Some 0%nat) init);
     env := draws; out := [] |}.

Lemma is_converged_raises_witness :
  (Exists (fun nd => nd.2 !! "id" = None) (nodes ragged_graph) ->
     is_converged (VStr "id") (VInt 10) (ready ragged_graph (VInt 10) 5)
       = (Raise KeyError, ready ragged_graph (VInt 10) 5)) /\
  (Forall (fun nd => is_Some (nd.2 !! "id")) (nodes ragged_graph) ->
   Exists (fun nd => exists v, nd.2 !! "id" = Some v /\ numeric v = None)
     (nodes ragged_graph) ->
     is_converged (VStr "id") (VInt 10) (ready ragged_graph (VInt 10) 5)
       = (Raise TypeError, ready ragged_graph (VInt 10) 5)).
Proof.
  apply (is_converged_raises (ready ragged_graph (VInt 10) 5) ragged_graph "id" (VInt 10)).
  reflexivity.
Defined.

Lemma is_converged_monotone_witness :
  ((is_converged (VStr "id") (VInt 0) (ready fives_graph (VInt 0) 5)).1 = Ok true ->
   (is_converged (VStr "id") (VInt 3) (ready fives_graph (VInt 0) 5)).1 = Ok true) /\
  ((inject_Z 3 < 0)%Q ->
   (is_converged (VStr "id") (VInt 3) (ready fives_graph (VInt 0) 5)).1 <> Ok true).
Proof.
  apply (is_converged_monotone (ready fives_graph (VInt 0) 5) (VStr "id")
           (VInt 0) (VInt 3) (inject_Z 0) (inject_Z 3)).
  - reflexivity.
  - reflexivity.
  - unfold Qle. simpl. lia.
Defined.

Lemma run_to_convergence_stops_converged_witness :
  converged (VStr "id") (VInt 10)
    (model (run_to_convergence levelling_stepper 4 (ready split_graph (VInt 10) 5)).2)
    = Ok true.
Proof.
  apply (run_to_convergence_stops_converged levelling_stepper 4
           (ready split_graph (VInt 10) 5) (VStr "id") (VInt 10) 1
           (run_to_convergence levelling_stepper 4 (ready split_graph (VInt 10) 5)).2).
  - reflexivity.
  - reflexivity.
  - reflexivity.
  - vm_compute. reflexivity.
Defined.

Lemma run_to_convergence_trace_witness :
  let st := ready split_graph (VInt 10) 5 in
  let st' := (run_to_convergence levelling_stepper 4 st).2 in
  0 <= 1 /\
  state_of st' = state_at levelling_stepper (Z.to_nat 1) (state_of st) /\
  (forall i, (i <= Z.to_nat 1)%nat ->
     exists g, graph (state_at levelling_stepper i (state_of st)).1 = PGraph g) /\
  out st' = out st ++
    PrintBefore (nodes_of (model st)) ::
    loop_lines levelling_stepper (VStr "id") (Z.to_nat 1) 0 (state_of st) ++
    (if 1 <? MAX_TIMESTEPS (model st')
     then [PrintStd (sample_of (VStr "id") (model st'))] else []).
Proof.
  apply (run_to_convergence_trace levelling_stepper 4 (ready split_graph (VInt 10) 5)
           (VStr "id") 1
           (run_to_convergence levelling_stepper 4 (ready split_graph (VInt 10) 5)).2).
  - reflexivity.
  - vm_compute. reflexivity.
Defined.

(** The lines of two runs on the nodes [1, 100] with the threshold 10 and
    the bound 2.  With a stepper that levels the nodes the second check
    ends the loop after one step; with a stepper that does nothing the
    bound ends it after two steps, without a last check. *)
Lemma run_to_convergence_lines :
  let levelled := [(0, {["id" := VInt 5]}); (1, {["id" := VInt 5]})] in
  run_to_convergence levelling_stepper 4 (ready split_graph (VInt 10) 2) =
    (Ok 1,
     add_out [PrintBefore (nodes split_graph); PrintStd [1#1; 100#1]%Q;
              PrintAfter 1 levelled; PrintStd [5#1; 5#1]%Q]
       (set_graph_var (PGraph {| nodes := levelled; edges := edges split_graph |})
          (ready split_graph (VInt 10) 2))) /\
  run_to_convergence idle_stepper 4 (ready split_graph (VInt 10) 2) =
    (Ok 2,
     add_out [PrintBefore (nodes split_graph); PrintStd [1#1; 100#1]%Q;
              PrintAfter 1 (nodes split_graph); PrintStd [1#1; 100#1]%Q;
              PrintAfter 2 (nodes split_graph)]
       (ready split_graph (VInt 10) 2)).
Proof. split; vm_compute; reflexivity. Qed.

Lemma run_to_convergence_needs_graph_witness :
  run_to_convergence idle_stepper 3
    (set_graph_var (PVal VNone) (ready split_graph (VInt 10) 0))
  = (Raise AttributeError, set_graph_var (PVal VNone) (ready split_graph (VInt 10) 0)).
Proof.
  apply (run_to_convergence_needs_graph idle_stepper 3
           (set_graph_var (PVal VNone) (ready split_graph (VInt 10) 0))
           (VStr "id") (VInt 10) VNone); reflexivity.
Defined.

(** The model of [ready] without its stepper. *)
Definition stepperless (g : Graph) (std_dev : value) (bound : Z) : St unit :=
  {| model := with_timestep_function None (ready_model g std_dev bound);
     env := tt; out := [] |}.

Lemma run_to_convergence_without_stepper_witness :
  let st := stepperless split_graph (VInt 10) 5 in
  let r := run_to_convergence idle_stepper (S 2) st in
  r.1 = (if (0 <? MAX_TIMESTEPS (model st)) && negb false
         then Raise (PyException "Timestep function is not set.")
         else Ok 0) /\
  model r.2 = model st.
Proof.
  apply (run_to_convergence_without_stepper idle_stepper 2
           (stepperless split_graph (VInt 10) 5) (VStr "id") (VInt 10) split_graph false);
    reflexivity.
Defined.

Lemma run_to_convergence_stepper_raises_witness :
  let st := ready split_graph (VInt 10) 5 in
  let r := run_to_convergence breaking_stepper 3 st in
  r.1 = Raise TypeError /\
  state_of r.2 = (breaking_stepper 0%nat (state_at breaking_stepper 0 (state_of st))).2.
Proof.
  apply (run_to_convergence_stepper_raises breaking_stepper 0 3
           (ready split_graph (VInt 10) 5) (VStr "id") (VInt 10) 0%nat TypeError).
  - reflexivity.
  - reflexivity.
  - reflexivity.
  - intros i Hi. assert (i = 0%nat) as -> by lia.
    split; [reflexivity | eexists; reflexivity].
  - intros i Hi. lia.
  - simpl. lia.
  - reflexivity.
  - reflexivity.
  - reflexivity.
  - lia.
Defined.

(** After the failed step the graph is gone: the change the stepper made
    before it raised is kept. *)
Lemma run_to_convergence_stepper_raises_keeps_change :
  graph (model (run_to_convergence breaking_stepper 3 (ready split_graph (VInt 10) 5)).2)
    = PVal VNone.
Proof. reflexivity. Qed.

Lemma NoDup_three : NoDup [0; 1; 2].
Proof.
  repeat (apply NoDup_cons_2; [intros H;
    repeat (apply elem_of_cons in H as [H|H]; [discriminate H|]);
    by apply elem_of_nil in H|]).
  apply NoDup_nil_2.
Defined.

Lemma initialize_graph_records_witness :
  let st := fresh_random in
  let rec := fun w : Random => {["id" := VInt (randint 1 100 (w 0%nat))]} in
  let next := fun (w : Random) i => w (S i) in
  let ids := [0; 1; 2] in
  let g0 := {| nodes := map (fun i => (i, ∅)) ids; edges := [(0, 1); (0, 2); (1, 2)] |} in
  let r := initialize_graph (fun _ => genInitialData) st in
  r.1 = Ok tt /\
  env r.2 = Nat.iter (length ids) next (env st) /\
  out r.2 = out st /\
  exists g, graph (model r.2) = PGraph g /\
    edges g = edges g0 /\
    map fst (nodes g) = ids /\
    forall j i, ids !! j = Some i ->
      nodes g !! j = Some (i, rec (Nat.iter j next (env st))).
Proof.
  apply (initialize_graph_records (fun _ => genInitialData)
           (fun w : Random => {["id" := VInt (randint 1 100 (w 0%nat))]})
           (fun (w : Random) i => w (S i))
           fresh_random (VInt 3) (VStr "complete")
           {| nodes := map (fun i => (i, ∅)) [0; 1; 2]; edges := [(0, 1); (0, 2); (1, 2)] |}
           [0; 1; 2]).
  - intros f m w. reflexivity.
  - reflexivity.
  - reflexivity.
  - eexists. reflexivity.
  - reflexivity.
  - reflexivity.
  - exact NoDup_three.
Defined.

(** The records of this call: the draws 0, 37 and 74 give the ids 1, 38
    and 75. *)
Lemma initialize_graph_random_ids :
  sample_at "id"
    (match graph (model (initialize_graph (fun _ => genInitialData) fresh_random).2) with
     | PGraph g => nodes g
     | PVal _ => []
     end) = [inject_Z 1; inject_Z 38; inject_Z 75].
Proof. reflexivity. Qed.

Lemma genInitialData_converges_at_once_witness :
  let st1 := (initialize_graph (fun _ => genInitialData) fresh_random).2 in
  let r := run_to_convergence (fun _ ms => (Raise TypeError, ms)) (S 0) st1 in
  (initialize_graph (fun _ => genInitialData) fresh_random).1 = Ok tt /\
  r.1 = Ok 0 /\ model r.2 = model st1.
Proof.
  apply (genInitialData_converges_at_once (fun _ ms => (Raise TypeError, ms))
           fresh_random (VInt 3) (VStr "complete")
           {| nodes := map (fun i => (i, ∅)) [0; 1; 2]; edges := [(0, 1); (0, 2); (1, 2)] |}
           [0; 1; 2] (VInt 100) (inject_Z 100) 0).
  - reflexivity.
  - reflexivity.
  - eexists. reflexivity.
  - reflexivity.
  - reflexivity.
  - exact NoDup_three.
  - intros H. discriminate H.
  - reflexivity.
  - reflexivity.
  - reflexivity.
  - unfold Qle. simpl. lia.
Defined.
